(** * Scraper orchestration and ingestion pipeline

    A shallow embedding of the scraper service (the module that defines
    [runPythonScraper], [canRunScraper], [upsertJobs] and
    [runScraperWorkflow]) together with the two tables of the schema it
    reads and writes, [jobs] and [scraper_runs].

    Modelling conventions.
    - A timestamp is the number of milliseconds since the epoch, as returned
      by [Date.getTime()].  The code stores [toISOString()] texts and reads
      them back with [new Date(text)]; on such texts the textual order used
      by [ORDER BY] is the chronological one.
    - [minutesSinceLastRun] is a quotient of two integers; it is kept as an
      exact rational, so [Math.ceil] is [Qceiling].
    - Every [await]ed database call is one atomic step on the tables; the
      tables are lists of rows in insertion order.
    - [new Date()] reads a wall clock.  The clock is the function [clock]:
      its [k]-th reading is [clock k], and the world counts the readings. *)

From Stdlib Require Import ZArith QArith Qround Lia Ascii.
From stdpp Require Import base decidable option list list_numbers sorting strings pretty gmap.

Local Open Scope Z_scope.

(** ** The schema *)

(** scraper_runs.status: 'running' | 'completed' | 'failed' *)
Inductive RunStatus := running | completed | failed.

Global Instance RunStatus_eq_dec : EqDecision RunStatus.
Proof. solve_decision. Defined.

(** A row of [scraper_runs].  The column [created_at] is filled by the
    database default and read by none of the functions below; it is left out. *)
Record ScraperRun := mkRun {
  run_id : nat;
  run_source : string;
  run_status : RunStatus;
  run_jobsFound : nat;
  run_newJobs : nat;
  run_startedAt : Z;
  run_completedAt : option Z;
  run_error : option string
}.

(** A row of [jobs]. *)
Record Job := mkJob {
  job_id : nat;
  job_title : string;
  job_company : string;
  job_location : option string;
  job_url : string;
  job_description : option string;
  job_salary : option string;
  job_jobType : option string;
  job_postedAt : option string;
  job_roleSlug : option string;
  job_source : string;
  job_isNewInLastHour : bool;
  job_firstSeen : Z;
  job_lastSeen : Z;
  job_createdAt : Z;
  job_updatedAt : Z
}.

(** One element of the [jobs] array of the scraper's document.  The fields
    the code guards with [||] may be absent from the document ([None]) or
    empty; both are falsy. *)
Record ScrapedJob := mkScraped {
  sj_title : string;
  sj_company : string;
  sj_location : option string;
  sj_url : string;
  sj_description : option string;
  sj_salary : option string;
  sj_job_type : option string;
  sj_posted_at : option string;
  sj_role_slug : option string;
  sj_source : string
}.

(** The scraper's document at its declared type. *)
Record ScraperResult := mkResult {
  sr_success : bool;
  sr_keyword : string;
  sr_timestamp : string;
  sr_total_jobs : Z;
  sr_jobs : list ScrapedJob;
  sr_error : option string
}.

(** The source selector of the workflow: 'linkedin' | 'stepstone' | 'all'. *)
Inductive SourceSel := linkedin | stepstone | all.

Definition source_name (s : SourceSel) : string :=
  match s with
  | linkedin => "linkedin"
  | stepstone => "stepstone"
  | all => "all"
  end.

(** ** The external process and promises *)

(** What the child process does after [spawn]: it emits 'close' with an exit
    code ([None] is the [null] code of a process ended by a signal) after
    having written [stdout] and [stderr]; or it emits 'error'; or it emits
    neither, ever. *)
Inductive ProcOutcome :=
  | Closed (code : option Z) (stdoutData stderrData : string)
  | SpawnError (message : string)
  | NeverCloses.

(** The state of a promise once nothing more can happen to it.  A rejection
    carries the message of its [Error]. *)
Inductive Promise (A : Type) :=
  | Resolved (a : A)
  | Rejected (message : string)
  | Pending.
Arguments Resolved {A} a.
Arguments Rejected {A} message.
Arguments Pending {A}.

(** A pending timer of [activeSchedules]. *)
Record Timer := mkTimer {
  tm_source : SourceSel;
  tm_keyword : string;
  tm_delay_ms : Z
}.

(** A write to [scraper_runs], as issued. *)
Inductive LedgerWrite :=
  | InsertRun (r : ScraperRun)
  | UpdateRun (id : nat) (status : RunStatus).

(** ** The world *)

Record World := mkWorld {
  w_jobs : list Job;
  w_runs : list ScraperRun;
  w_activeSchedules : gmap string Timer;
  w_ticks : nat;
  w_spawned : list (list string);
  w_ledgerLog : list LedgerWrite
}.

Definition tick (w : World) : World :=
  mkWorld (w_jobs w) (w_runs w) (w_activeSchedules w) (S (w_ticks w))
          (w_spawned w) (w_ledgerLog w).

Definition set_ticks (k : nat) (w : World) : World :=
  mkWorld (w_jobs w) (w_runs w) (w_activeSchedules w) k
          (w_spawned w) (w_ledgerLog w).

Definition set_jobs (js : list Job) (w : World) : World :=
  mkWorld js (w_runs w) (w_activeSchedules w) (w_ticks w)
          (w_spawned w) (w_ledgerLog w).

Definition set_runs (rs : list ScraperRun) (w : World) : World :=
  mkWorld (w_jobs w) rs (w_activeSchedules w) (w_ticks w)
          (w_spawned w) (w_ledgerLog w).

Definition set_activeSchedules (m : gmap string Timer) (w : World) : World :=
  mkWorld (w_jobs w) (w_runs w) m (w_ticks w) (w_spawned w) (w_ledgerLog w).

(** ** JavaScript's [||] on an optional string *)

(** [x || d]: [d] when [x] is undefined or empty. *)
Definition js_or (x : option string) (d : string) : string :=
  match x with
  | Some s => if decide (s = "") then d else s
  | None => d
  end.

(** [x || null] *)
Definition or_null (x : option string) : option string :=
  match x with
  | Some s => if decide (s = "") then None else Some s
  | None => None
  end.

(** ** Statements on [jobs] *)

Definition set_isNewInLastHour (b : bool) (j : Job) : Job :=
  mkJob (job_id j) (job_title j) (job_company j) (job_location j) (job_url j)
        (job_description j) (job_salary j) (job_jobType j) (job_postedAt j)
        (job_roleSlug j) (job_source j) b
        (job_firstSeen j) (job_lastSeen j) (job_createdAt j) (job_updatedAt j).

(** The assignments of the update of an existing job:
    set({ lastSeen: nowIso, isNewInLastHour: false, updatedAt: nowIso }) *)
Definition set_seen (nowIso : Z) (j : Job) : Job :=
  mkJob (job_id j) (job_title j) (job_company j) (job_location j) (job_url j)
        (job_description j) (job_salary j) (job_jobType j) (job_postedAt j)
        (job_roleSlug j) (job_source j) false
        (job_firstSeen j) nowIso (job_createdAt j) nowIso.

(** update(jobs).set({ isNewInLastHour: false }).where(eq(jobs.source, source)) *)
Definition db_markNotNew (source : string) (js : list Job) : list Job :=
  (λ j, if decide (job_source j = source) then set_isNewInLastHour false j else j) <$> js.

(** select().from(jobs).where(eq(jobs.url, url)).limit(1) *)
Definition db_selectByUrl (url : string) (js : list Job) : list Job :=
  take 1 (filter (λ j, job_url j = url) js).

(** update(jobs).set({...}).where(eq(jobs.url, url)) *)
Definition db_updateSeen (url : string) (nowIso : Z) (js : list Job) : list Job :=
  (λ j, if decide (job_url j = url) then set_seen nowIso j else j) <$> js.

(** The urls of the table, and count(jobs with this url). *)
Definition urlsOf (js : list Job) : list string := job_url <$> js.

Definition countUrl (url : string) (js : list Job) : nat :=
  length (filter (λ j, job_url j = url) js).

(** The revisit as the specification words it: lastSeen and updatedAt move
    to now, and the row is otherwise as it was. *)
Definition spec_revisit (nowIso : Z) (j : Job) : Job :=
  mkJob (job_id j) (job_title j) (job_company j) (job_location j) (job_url j)
        (job_description j) (job_salary j) (job_jobType j) (job_postedAt j)
        (job_roleSlug j) (job_source j) (job_isNewInLastHour j)
        (job_firstSeen j) nowIso (job_createdAt j) nowIso.

(** completedAt is set exactly on the rows that are not running. *)
Definition closedIffDated (r : ScraperRun) : Prop :=
  is_Some (run_completedAt r) ↔ run_status r ≠ running.

(** The next value of an AUTOINCREMENT key.  No statement of the service
    deletes a row, so it is one more than the largest key of the table. *)
Definition next_id (ids : list nat) : nat := S (max_list ids).

(** The values of the insert of a new job. *)
Definition newJobRow (id : nat) (scrapedJob : ScrapedJob) (nowIso : Z) : Job :=
  mkJob id (sj_title scrapedJob) (sj_company scrapedJob)
        (or_null (sj_location scrapedJob)) (sj_url scrapedJob)
        (or_null (sj_description scrapedJob)) (or_null (sj_salary scrapedJob))
        (or_null (sj_job_type scrapedJob)) (or_null (sj_posted_at scrapedJob))
        (Some (js_or (sj_role_slug scrapedJob) "other"))
        (sj_source scrapedJob) true nowIso nowIso nowIso nowIso.

(** db.insert(jobs).values({...}): the statement fails, and the call throws,
    when the table already holds the url (url TEXT NOT NULL UNIQUE). *)
Definition db_insertJob (scrapedJob : ScrapedJob) (nowIso : Z) (js : list Job) : option (list Job) :=
  if decide (sj_url scrapedJob ∈ job_url <$> js) then None
  else Some (js ++ [newJobRow (next_id (job_id <$> js)) scrapedJob nowIso]).

(** ** Statements on [scraper_runs] *)

(** db.insert(scraperRuns).values({ source, status: 'running', startedAt })
    .returning(): the other columns take their defaults. *)
Definition newRunRecord (runs : list ScraperRun) (source : string) (startedAtIso : Z) : ScraperRun :=
  mkRun (next_id (run_id <$> runs)) source running 0 0 startedAtIso None None.

Definition db_insertRun (r : ScraperRun) (w : World) : World :=
  mkWorld (w_jobs w) (w_runs w ++ [r]) (w_activeSchedules w) (w_ticks w)
          (w_spawned w) (w_ledgerLog w ++ [InsertRun r]).

(** set({ status: 'completed', completedAt, jobsFound, newJobs }) *)
Definition set_completed (completedAt : Z) (jobsFound newJobs : nat) (r : ScraperRun) : ScraperRun :=
  mkRun (run_id r) (run_source r) completed jobsFound newJobs
        (run_startedAt r) (Some completedAt) (run_error r).

(** set({ status: 'failed', completedAt, error }) *)
Definition set_failed (completedAt : Z) (errorMessage : string) (r : ScraperRun) : ScraperRun :=
  mkRun (run_id r) (run_source r) failed (run_jobsFound r) (run_newJobs r)
        (run_startedAt r) (Some completedAt) (Some errorMessage).

(** update(scraperRuns).set(...).where(eq(scraperRuns.id, id)) *)
Definition db_updateRun (id : nat) (status : RunStatus) (f : ScraperRun → ScraperRun) (w : World) : World :=
  mkWorld (w_jobs w)
          ((λ r, if decide (run_id r = id) then f r else r) <$> w_runs w)
          (w_activeSchedules w) (w_ticks w)
          (w_spawned w) (w_ledgerLog w ++ [UpdateRun id status]).

(** ** Queries on [scraper_runs] *)

(** The order of SQLite on a nullable column: NULL sorts before every value. *)
Definition nulls_first_le (a b : option Z) : Prop :=
  match a, b with
  | None, _ => True
  | Some _, None => False
  | Some x, Some y => x ≤ y
  end.

Global Instance nulls_first_le_dec a b : Decision (nulls_first_le a b).
Proof. destruct a, b; simpl; apply _. Defined.

(** [desc(scraperRuns.completedAt)] *)
Definition completedAt_desc (r1 r2 : ScraperRun) : Prop :=
  nulls_first_le (run_completedAt r2) (run_completedAt r1).

Global Instance completedAt_desc_dec r1 r2 : Decision (completedAt_desc r1 r2).
Proof. unfold completedAt_desc. apply _. Defined.

(** where(and(eq(source, source), eq(status, 'completed'))) *)
Definition completedRunsOf (source : string) (runs : list ScraperRun) : list ScraperRun :=
  filter (λ r, run_source r = source ∧ run_status r = completed) runs.

(** select ... where ... orderBy(desc(completedAt)).limit(1) *)
Definition lastCompletedRun (source : string) (runs : list ScraperRun) : list ScraperRun :=
  take 1 (merge_sort completedAt_desc (completedRunsOf source runs)).

(** The character of code 34 and the document
    {(q)success(q):false,(q)error(q):(q)blocked(q)}, with (q) that character. *)
Definition dquote : string := String "034"%char "".

Definition blockedDocument : string :=
  "{" +:+ dquote +:+ "success" +:+ dquote +:+ ":false,"
      +:+ dquote +:+ "error" +:+ dquote +:+ ":" +:+ dquote +:+ "blocked" +:+ dquote +:+ "}".

(** ** The jobs service and the trigger route: types and queries *)

(** LIMIT n of SQLite: a negative n is no bound. *)
Definition sql_limit {A : Type} (n : Z) (l : list A) : list A :=
  if decide (n < 0) then l else take (Z.to_nat n) l.

(** [desc(jobs.createdAt)], [desc(jobs.firstSeen)], [desc(scraperRuns.startedAt)] *)
Definition createdAt_desc (j1 j2 : Job) : Prop := job_createdAt j2 ≤ job_createdAt j1.

Definition firstSeen_desc (j1 j2 : Job) : Prop := job_firstSeen j2 ≤ job_firstSeen j1.

Definition startedAt_desc (r1 r2 : ScraperRun) : Prop := run_startedAt r2 ≤ run_startedAt r1.

Global Instance createdAt_desc_dec j1 j2 : Decision (createdAt_desc j1 j2).
Proof. unfold createdAt_desc. apply _. Defined.

Global Instance firstSeen_desc_dec j1 j2 : Decision (firstSeen_desc j1 j2).
Proof. unfold firstSeen_desc. apply _. Defined.

Global Instance startedAt_desc_dec r1 r2 : Decision (startedAt_desc r1 r2).
Proof. unfold startedAt_desc. apply _. Defined.

(** The parameter object of [getAllJobs]; an absent field is [None]. *)
Record JobParams := mkParams {
  gp_source : option string;
  gp_roleSlug : option string;
  gp_isNew : option bool;
  gp_limit : option Z
}.

(** The conjunction of the conditions pushed by [getAllJobs]: one for a
    truthy source, one for a truthy roleSlug, one for a truthy isNew. *)
Definition jobConditions (params : JobParams) (j : Job) : Prop :=
  match or_null (gp_source params) with
  | Some source => job_source j = source
  | None => True
  end ∧
  match or_null (gp_roleSlug params) with
  | Some roleSlug => job_roleSlug j = Some roleSlug
  | None => True
  end ∧
  match gp_isNew params with
  | Some true => job_isNewInLastHour j = true
  | _ => True
  end.

Global Instance jobConditions_dec params j : Decision (jobConditions params j).
Proof.
  unfold jobConditions.
  destruct (or_null (gp_source params)), (or_null (gp_roleSlug params)),
    (gp_isNew params) as [[|]|]; apply _.
Defined.

(** [getAllJobs]: where(and(...conditions)).orderBy(desc(createdAt)).limit(limit),
    with limit = 1000 when the parameter is absent. *)
Definition getAllJobs (params : JobParams) (w : World) : list Job :=
  sql_limit (default 1000 (gp_limit params))
    (merge_sort createdAt_desc (filter (jobConditions params) (w_jobs w))).

(** [getJobsBySource]: the new jobs of the source, latest firstSeen first. *)
Definition getJobsBySource (source : string) (w : World) : list Job :=
  merge_sort firstSeen_desc
    (filter (λ j, job_source j = source ∧ job_isNewInLastHour j = true) (w_jobs w)).

(** [getJobById]: where(eq(jobs.id, id)).limit(1), then result[0] || null. *)
Definition getJobById (id : nat) (w : World) : option Job :=
  head (take 1 (filter (λ j, job_id j = id) (w_jobs w))).

(** [getRecentScraperRuns]: the where clause is added for a truthy source;
    limit = 10 when the parameter is absent. *)
Definition getRecentScraperRuns (source : option string) (limit : option Z) (w : World)
  : list ScraperRun :=
  sql_limit (default 10 limit)
    (merge_sort startedAt_desc
       match or_null source with
       | Some s => filter (λ r, run_source r = s) (w_runs w)
       | None => w_runs w
       end).

(** select source, count( * ) from jobs group by source: one row for each
    source of the table. *)
Definition countSource (source : string) (js : list Job) : nat :=
  length (filter (λ j, job_source j = source) js).

Definition sourceStats (js : list Job) : list (string * nat) :=
  (λ source, (source, countSource source js)) <$> remove_dups (job_source <$> js).

Record JobStats := mkJobStats {
  js_totalJobs : nat;
  js_newJobsLastHour : nat;
  js_jobsBySource : gmap string nat;
  js_lastUpdated : Z
}.

Record ScraperStatus := mkScraperStatus {
  st_source : string;
  st_lastRun : option ScraperRun;
  st_canRun : bool;
  st_minutesUntilNextRun : Z
}.

(** A row of [settings]; the id and the two timestamps are read nowhere. *)
Record Setting := mkSetting {
  setting_key : string;
  setting_value : string
}.

(** ['linkedin', 'stepstone', 'all'].includes(source) *)
Definition parseSource (source : string) : option SourceSel :=
  if decide (source = "linkedin") then Some linkedin
  else if decide (source = "stepstone") then Some stepstone
  else if decide (source = "all") then Some all
  else None.

(** value.split(',')[0]: the text before the first comma. *)
Fixpoint beforeComma (value : string) : string :=
  match value with
  | EmptyString => EmptyString
  | String c rest => if Ascii.eqb c ","%char then EmptyString else String c (beforeComma rest)
  end.

(** The answers of POST /scrape: 400, 429 and 200. *)
Inductive ScrapeResponse :=
  | InvalidSource
  | MustWait (error : string) (minutesUntilNext : Z)
  | ScraperStarted (source : SourceSel) (keyword : string).

Global Instance SourceSel_eq_dec : EqDecision SourceSel.
Proof. solve_decision. Defined.

(** The key of [activeSchedules] for a source and a keyword. *)
Definition scheduleKeyOf (source : SourceSel) (keyword : string) : string :=
  source_name source +:+ "-" +:+ keyword.

(** [clearAllSchedules]: every timer is cleared and the map emptied. *)
Definition clearAllSchedules (w : World) : World := set_activeSchedules ∅ w.

(** ** Sample data

    One environment and a few worlds on which the properties below are
    exercised. *)
Module Sample.

(** A clock that advances one minute between two readings. *)
Definition clock (k : nat) : Z := 1700000000000 + 60000 * Z.of_nat k.

Definition hours : Z := 2.
Definition pythonPath : string := "python3".
Definition scraperPath : string := "./scraper/main.py".

Definition revisit : ScrapedJob :=
  mkScraped "Firmware Engineer" "Acme" (Some "Berlin") "https://jobs.example/1"
            None None None None (Some "firmware") "linkedin".

Definition newcomer : ScrapedJob :=
  mkScraped "Hardware Engineer" "Bolt" None "https://jobs.example/2"
            None None None None None "stepstone".

Definition okResult : ScraperResult :=
  mkResult true "embedded" "2023-11-14T22:13:20" 2 [revisit; newcomer] None.

Definition revisitResult : ScraperResult :=
  mkResult true "embedded" "2023-11-14T22:13:20" 1 [revisit] None.

Definition newcomerResult : ScraperResult :=
  mkResult true "embedded" "2023-11-14T22:13:20" 1 [newcomer] None.

Definition emptyResult : ScraperResult :=
  mkResult true "embedded" "2023-11-14T22:13:20" 0 [] None.

Definition blockedResult : ScraperResult :=
  mkResult false "" "" 0 [] (Some "blocked").

(** A reader that knows two documents. *)
Definition parse (s : string) : option ScraperResult :=
  if decide (s = blockedDocument) then Some blockedResult
  else if decide (s = "newcomer") then Some newcomerResult
  else None.

Definition pythonBlocked (n : nat) (args : list string) : ProcOutcome :=
  Closed (Some 0) blockedDocument "HTTP 403".

Definition pythonNewcomer (n : nat) (args : list string) : ProcOutcome :=
  Closed (Some 0) "newcomer" "".

Definition pythonHangs (n : nat) (args : list string) : ProcOutcome := NeverCloses.

(** A job of linkedin, first seen in the last cycle and still new. *)
Definition freshJob : Job :=
  mkJob 1 "Firmware Engineer" "Acme" (Some "Berlin") "https://jobs.example/1"
        None None None None (Some "firmware") "linkedin" true
        1699990000000 1699990000000 1699990000000 1699990000000.

Definition emptyWorld : World := mkWorld [] [] ∅ 0 [] [].

Definition stocked : World := mkWorld [freshJob] [] ∅ 0 [] [].

(** linkedin completed a run 30 minutes before the first clock reading;
    an older run completed and one failed later. *)
Definition cooling : World :=
  mkWorld []
    [mkRun 1 "linkedin" completed 4 1 1699990000000 (Some 1699990600000) None;
     mkRun 2 "linkedin" completed 7 2 1699998000000 (Some 1699998200000) None;
     mkRun 3 "linkedin" failed 0 0 1699999000000 (Some 1699999900000) (Some "blocked")]
    ∅ 0 [] [].

(** linkedin completed its last run three hours before the first reading. *)
Definition rested : World :=
  mkWorld [freshJob]
    [mkRun 1 "linkedin" completed 4 1 1699989000000 (Some 1699989200000) None]
    ∅ 0 [] [].

(** The newcomer listed twice in one batch. *)
Definition duplicateResult : ScraperResult :=
  mkResult true "embedded" "2023-11-14T22:13:20" 2 [newcomer; newcomer] None.

(** A process that exits with code 1. *)
Definition pythonFails (n : nat) (args : list string) : ProcOutcome :=
  Closed (Some 1) "" "Traceback".

(** [trim] on a text whose only white space is the space character. *)
Fixpoint trimStart (s : string) : string :=
  match s with
  | String c rest => if Ascii.eqb c " "%char then trimStart rest else s
  | EmptyString => EmptyString
  end.

Fixpoint trimEnd (s : string) : string :=
  match s with
  | EmptyString => EmptyString
  | String c rest =>
    match trimEnd rest with
    | EmptyString => if Ascii.eqb c " "%char then EmptyString else String c EmptyString
    | kept => String c kept
    end
  end.

Definition trim (s : string) : string := trimEnd (trimStart s).

(** A settings table with two keywords. *)
Definition settingsTable : list Setting :=
  [mkSetting "theme" "dark"; mkSetting "keywords" " firmware engineer ,embedded"].

End Sample.

Section Service.

(** The environment of the service. *)
Variable clock : nat → Z.
Variable MIN_INTERVAL_HOURS : Z.
Variable PYTHON_PATH SCRAPER_PATH : string.
(** [JSON.parse] read at the declared type [ScraperResult]; [None] when it
    throws. *)
Variable JSON_parse : string → option ScraperResult.
(** The behaviour of the child process, by the number of processes spawned
    before it and its argument list. *)
Variable python : nat → list string → ProcOutcome.
(** [String.prototype.trim] *)
Variable String_trim : string → string.

(** ** canRunScraper *)

(** [t] is the latest completion time among the completed runs of [source]. *)
Definition mostRecentCompletion (source : string) (runs : list ScraperRun) (t : Z) : Prop :=
  Exists (λ r, run_completedAt r = Some t) (completedRunsOf source runs) ∧
  Forall (λ r, nulls_first_le (run_completedAt r) (Some t)) (completedRunsOf source runs).

Definition minutesBetween (now lastRunTime : Z) : Q :=
  (inject_Z (now - lastRunTime) / inject_Z (1000 * 60))%Q.

Definition canRunScraper (source : string) (w : World) : (bool * Z) * World :=
  match lastCompletedRun source (w_runs w) with
  | [] => ((true, 0), w)
  | lastRun0 :: _ =>
    match run_completedAt lastRun0 with
    | None => ((true, 0), w)
    | Some lastRunTime =>
      let now := clock (w_ticks w) in
      let w1 := tick w in
      let minutesSinceLastRun := minutesBetween now lastRunTime in
      let requiredMinutes := inject_Z (MIN_INTERVAL_HOURS * 60) in
      if negb (Qle_bool requiredMinutes minutesSinceLastRun)
      then ((false, Qceiling (requiredMinutes - minutesSinceLastRun)), w1)
      else ((true, 0), w1)
    end
  end.

(** ** scheduleNextRun

    [clearTimeout] on the timer already registered under the key and
    [activeSchedules.set] of the new one: the map holds the live timer of each
    key. *)
Definition scheduleNextRun (source : SourceSel) (keyword : string) (hours : Z) (w : World) : World :=
  let scheduleKey := source_name source +:+ "-" +:+ keyword in
  set_activeSchedules
    (<[scheduleKey := mkTimer source keyword (hours * 60 * 60 * 1000)]> (w_activeSchedules w)) w.

(** ** runPythonScraper *)

Definition scraperArgs (keyword : string) (source : SourceSel) : list string :=
  [SCRAPER_PATH; "--keyword=" +:+ keyword; "--source=" +:+ source_name source].

Definition show_code (code : option Z) : string :=
  match code with
  | Some c => pretty c
  | None => "null"
  end.

Definition on_close (code : option Z) (stdoutData stderrData : string) : Promise ScraperResult :=
  if decide (code = Some 0) then
    match JSON_parse stdoutData with
    | Some result =>
      if negb (sr_success result)
      then Rejected (js_or (sr_error result) "Scraper failed")
      else Resolved result
    | None => Rejected "Failed to parse scraper JSON output"
    end
  else Rejected ("Scraper failed with code " +:+ show_code code +:+ ": " +:+ stderrData).

Definition runPythonScraper (keyword : string) (source : SourceSel) (w : World)
  : Promise ScraperResult * World :=
  let args := scraperArgs keyword source in
  let w1 := mkWorld (w_jobs w) (w_runs w) (w_activeSchedules w) (w_ticks w)
                    (w_spawned w ++ [PYTHON_PATH :: args]) (w_ledgerLog w) in
  match python (length (w_spawned w)) args with
  | Closed code stdoutData stderrData => (on_close code stdoutData stderrData, w1)
  | SpawnError message => (Rejected message, w1)
  | NeverCloses => (Pending, w1)
  end.

(** ** upsertJobs *)

(** The body of the loop, with its try/catch: a failed insert leaves the
    tables and the count as they were. *)
Definition upsertJob (scrapedJob : ScrapedJob) (st : World * nat) : World * nat :=
  let '(w, newJobsCount) := st in
  match db_selectByUrl (sj_url scrapedJob) (w_jobs w) with
  | _ :: _ =>
    let nowIso := clock (w_ticks w) in
    (set_jobs (db_updateSeen (sj_url scrapedJob) nowIso (w_jobs w)) (tick w), newJobsCount)
  | [] =>
    let nowIso := clock (w_ticks w) in
    match db_insertJob scrapedJob nowIso (w_jobs w) with
    | Some js => (set_jobs js (tick w), S newJobsCount)
    | None => (tick w, newJobsCount)
    end
  end.

Definition upsertLoop (records : list ScrapedJob) (st : World * nat) : World * nat :=
  foldl (λ st scrapedJob, upsertJob scrapedJob st) st records.

Definition upsertJobs (result : ScraperResult) (source : string) (w : World)
  : (nat * nat) * World :=
  let totalJobs := length (sr_jobs result) in
  let w1 := set_jobs (db_markNotNew source (w_jobs w)) w in
  let '(w2, newJobsCount) := upsertLoop (sr_jobs result) (w1, 0%nat) in
  ((totalJobs, newJobsCount), w2).

(** ** runScraperWorkflow *)

Record WorkflowResult := mkWorkflowResult {
  wr_success : bool;
  wr_message : string;
  wr_stats : option (nat * nat)
}.

Definition sourcesOf (source : SourceSel) : list string :=
  match source with
  | all => ["linkedin"; "stepstone"]
  | _ => [source_name source]
  end.

(** The loop over [sources]: the first source that cannot run, with its
    [minutesUntilNext]. *)
Fixpoint checkSources (sources : list string) (w : World) : option (string * Z) * World :=
  match sources with
  | [] => (None, w)
  | src :: rest =>
    let '((canRun, minutesUntilNext), w1) := canRunScraper src w in
    if negb canRun then (Some (src, minutesUntilNext), w1)
    else checkSources rest w1
  end.

(** The world in which the loop checks each source: the first one in the
    world of the call, the next one in the world the previous check left. *)
Fixpoint gateChecks (sources : list string) (w : World) : list (string * World) :=
  match sources with
  | [] => []
  | src :: rest => (src, w) :: gateChecks rest (canRunScraper src w).2
  end.

Definition mustWait (minutesUntilNext : Z) (src : string) : WorkflowResult :=
  mkWorkflowResult false
    ("Must wait " +:+ pretty minutesUntilNext +:+ " more minutes before running "
       +:+ src +:+ " scraper")
    None.

Definition runScraperWorkflow (source : SourceSel) (keyword : string) (isManualTrigger : bool)
    (w : World) : Promise WorkflowResult * World :=
  match checkSources (sourcesOf source) w with
  | (Some (src, minutesUntilNext), w1) => (Resolved (mustWait minutesUntilNext src), w1)
  | (None, w1) =>
    let startedAtIso := clock (w_ticks w1) in
    let runRecord := newRunRecord (w_runs w1) (source_name source) startedAtIso in
    let w2 := db_insertRun runRecord (tick w1) in
    match runPythonScraper keyword source w2 with
    | (Resolved result, w3) =>
      let '(stats, w4) := upsertJobs result (source_name source) w3 in
      let completedAt := clock (w_ticks w4) in
      let w5 := db_updateRun (run_id runRecord) completed
                  (set_completed completedAt stats.1 stats.2) (tick w4) in
      let w6 := if isManualTrigger
                then scheduleNextRun source keyword MIN_INTERVAL_HOURS w5
                else w5 in
      (Resolved (mkWorkflowResult true "Scraper completed successfully" (Some stats)), w6)
    | (Rejected errorMessage, w3) =>
      let completedAt := clock (w_ticks w3) in
      let w4 := db_updateRun (run_id runRecord) failed
                  (set_failed completedAt errorMessage) (tick w3) in
      (Resolved (mkWorkflowResult false ("Scraper failed: " +:+ errorMessage) None), w4)
    | (Pending, w3) => (Pending, w3)
    end
  end.

(** Every stored job was first seen no later than it was last seen, created
    no later than it was updated, and none of the four times is ahead of the
    next reading of the clock. *)
Definition seenInOrder (w : World) : Prop :=
  Forall (λ j, job_firstSeen j ≤ job_lastSeen j ∧ job_lastSeen j ≤ clock (w_ticks w) ∧
               job_createdAt j ≤ job_updatedAt j ∧ job_updatedAt j ≤ clock (w_ticks w))
         (w_jobs w).

(** ** The jobs service: functions that read the clock *)

(** [getJobStats] *)
Definition getJobStats (w : World) : JobStats * World :=
  let totalJobs := length (w_jobs w) in
  let newJobsLastHour := length (filter (λ j, job_isNewInLastHour j = true) (w_jobs w)) in
  let jobsBySource :=
    foldl (λ (m : gmap string nat) row, <[row.1 := row.2]> m) ∅ (sourceStats (w_jobs w)) in
  (mkJobStats totalJobs newJobsLastHour jobsBySource (clock (w_ticks w)), tick w).

(** The body of the loop of [getScraperStatus], with requiredMinutes = 60. *)
Definition statusOf (source : string) (w : World) : ScraperStatus * World :=
  let lastRun := head (lastCompletedRun source (w_runs w)) in
  match lastRun ≫= run_completedAt with
  | Some lastRunTime =>
    let now := clock (w_ticks w) in
    let minutesSinceLastRun := minutesBetween now lastRunTime in
    let requiredMinutes := inject_Z 60 in
    if negb (Qle_bool requiredMinutes minutesSinceLastRun)
    then (mkScraperStatus source lastRun false
            (Qceiling (requiredMinutes - minutesSinceLastRun)), tick w)
    else (mkScraperStatus source lastRun true 0, tick w)
  | None => (mkScraperStatus source lastRun true 0, w)
  end.

(** [getScraperStatus]: the loop over ['linkedin', 'stepstone']. *)
Definition getScraperStatus (w : World) : gmap string ScraperStatus * World :=
  foldl (λ (acc : gmap string ScraperStatus * World) source,
           let '(st, w1) := statusOf source acc.2 in (<[source := st]> acc.1, w1))
        (∅, w) ["linkedin"; "stepstone"].

(** ** The callback of a timer set by [scheduleNextRun]

    It awaits runScraperWorkflow(source, keyword, false) and then schedules
    the next run; a rejection of the workflow is caught and logged. *)
Definition scheduledRun (source : SourceSel) (keyword : string) (w : World) : World :=
  match runScraperWorkflow source keyword false w with
  | (Resolved _, w1) => scheduleNextRun source keyword MIN_INTERVAL_HOURS w1
  | (Rejected _, w1) => w1
  | (Pending, w1) => w1
  end.

(** ** POST /scrape *)

(** The keyword taken from the settings: the first entry of the value stored
    under the key keywords, trimmed, or the default. *)
Definition settingKeyword (settingsT : list Setting) : string :=
  match take 1 (filter (λ st, setting_key st = "keywords") settingsT) with
  | keywordsSetting :: _ => String_trim (beforeComma (setting_value keywordsSetting))
  | [] => "embedded systems engineer"
  end.

(** The handler up to its answer.  On 200 the workflow has been started with
    the source and keyword of the answer and isManualTrigger left to its
    default, false; it is not awaited. *)
Definition postScrape (settingsT : list Setting) (source keyword : option string) (w : World)
  : ScrapeResponse * World :=
  match source ≫= parseSource with
  | None => (InvalidSource, w)
  | Some src =>
    let searchKeyword :=
      match or_null keyword with
      | Some k => k
      | None => settingKeyword settingsT
      end in
    match checkSources (sourcesOf src) w with
    | (Some (blocked, minutesUntilNext), w1) =>
      (MustWait ("Must wait " +:+ pretty minutesUntilNext +:+ " more minutes before running "
                   +:+ blocked +:+ " scraper") minutesUntilNext, w1)
    | (None, w1) => (ScraperStarted src searchKeyword, w1)
    end
  end.

(** The workflow a 200 answer has started, run to its end on the world the
    handler left. *)
Definition startedWorkflow (response : ScrapeResponse) (w : World)
  : option (Promise WorkflowResult * World) :=
  match response with
  | ScraperStarted source keyword => Some (runScraperWorkflow source keyword false w)
  | _ => None
  end.

(** * Properties *)

(** ** The cooldown gate *)

Global Instance completedAt_desc_total : Total completedAt_desc.
Proof.
  intros r1 r2. unfold completedAt_desc.
  destruct (run_completedAt r1), (run_completedAt r2); simpl; auto; lia.
Qed.

Global Instance completedAt_desc_trans : Transitive completedAt_desc.
Proof.
  intros r1 r2 r3. unfold completedAt_desc.
  destruct (run_completedAt r1), (run_completedAt r2), (run_completedAt r3);
    simpl; auto; try lia; tauto.
Qed.

Lemma completedRunsOf_idemp source runs :
  completedRunsOf source (completedRunsOf source runs) = completedRunsOf source runs.
Proof.
  unfold completedRunsOf. induction runs as [|r runs IH]; [done|].
  rewrite filter_cons. case_decide as Hr; [|done].
  rewrite filter_cons. rewrite decide_True by done. by rewrite IH.
Qed.

(** [ORDER BY completedAt DESC LIMIT 1] returns a row of the selection that
    no other row of the selection comes after. *)
Lemma lastCompletedRun_cases source runs :
  (completedRunsOf source runs = [] ∧ lastCompletedRun source runs = []) ∨
  (∃ r, lastCompletedRun source runs = [r] ∧ r ∈ completedRunsOf source runs ∧
        Forall (completedAt_desc r) (completedRunsOf source runs)).
Proof.
  unfold lastCompletedRun.
  pose proof (StronglySorted_merge_sort completedAt_desc (completedRunsOf source runs)) as Hs.
  pose proof (merge_sort_Permutation completedAt_desc (completedRunsOf source runs)) as Hp.
  destruct (merge_sort completedAt_desc (completedRunsOf source runs)) as [|r l].
  - left. split; [|done]. by apply Permutation_nil in Hp.
  - right. exists r. split; [done|]. split.
    + rewrite <- Hp. left.
    + rewrite <- Hp. apply StronglySorted_inv in Hs as [_ Hall].
      constructor; [|done]. destruct (total completedAt_desc r r); done.
Qed.

Lemma lastCompletedRun_mostRecent source runs t :
  mostRecentCompletion source runs t →
  ∃ r, lastCompletedRun source runs = [r] ∧ run_completedAt r = Some t.
Proof.
  intros [Hex Hall].
  destruct (lastCompletedRun_cases source runs) as [[Hnil _]|(r & Hr & Hin & Hmax)].
  - rewrite Hnil in Hex. by apply Exists_nil in Hex.
  - exists r. split; [done|].
    apply Exists_exists in Hex as (r0 & Hin0 & Ht0).
    rewrite Forall_forall in Hall, Hmax.
    specialize (Hall r Hin). specialize (Hmax r0 Hin0).
    unfold completedAt_desc in Hmax. rewrite Ht0 in Hmax.
    destruct (run_completedAt r) as [t'|]; simpl in *; [|done].
    f_equal. lia.
Qed.

(** C1. [canRunScraper] looks only at the completed runs of the source.
    With none, it allows the run and reports 0 minutes.  Otherwise, with [e]
    the minutes elapsed since the latest completion time and [r] the required
    minutes (MIN_INTERVAL_HOURS * 60, 120 for the default of 2 hours), it
    allows the run when [r <= e] and otherwise refuses it with
    [ceil (r - e)] minutes to wait; 30 minutes after a completion, with
    [r = 120], it refuses with 90 minutes. *)
Theorem canRunScraper_cooldown (source : string) (w : World) :
  (canRunScraper source w).1
    = (canRunScraper source (set_runs (completedRunsOf source (w_runs w)) w)).1 ∧
  (completedRunsOf source (w_runs w) = [] → canRunScraper source w = ((true, 0), w)) ∧
  (∀ t, mostRecentCompletion source (w_runs w) t →
     let e := minutesBetween (clock (w_ticks w)) t in
     let r := inject_Z (MIN_INTERVAL_HOURS * 60) in
     ((r <= e)%Q → (canRunScraper source w).1 = (true, 0)) ∧
     (¬ (r <= e)%Q → (canRunScraper source w).1 = (false, Qceiling (r - e))) ∧
     (MIN_INTERVAL_HOURS = 2 → clock (w_ticks w) - t = 30 * (1000 * 60) →
      (canRunScraper source w).1 = (false, 90))).
Proof.
  split; [|split].
  - unfold canRunScraper, lastCompletedRun. simpl.
    rewrite completedRunsOf_idemp.
    destruct (take 1 _) as [|r ?]; [done|].
    destruct (run_completedAt r); [|done]. simpl.
    by destruct (negb _).
  - intros Hnil. unfold canRunScraper, lastCompletedRun. by rewrite Hnil.
  - intros t Ht e r.
    destruct (lastCompletedRun_mostRecent _ _ _ Ht) as (r0 & Hr0 & Ht0).
    assert (Hle : (r <= e)%Q → (canRunScraper source w).1 = (true, 0)).
    { intros He. unfold canRunScraper. rewrite Hr0, Ht0.
      apply Qle_bool_iff in He. fold e r. by rewrite He. }
    assert (Hgt : ¬ (r <= e)%Q → (canRunScraper source w).1 = (false, Qceiling (r - e))).
    { intros He. unfold canRunScraper. rewrite Hr0, Ht0. fold e r.
      destruct (Qle_bool r e) eqn:Hb; [|done].
      apply Qle_bool_iff in Hb. done. }
    split; [done|]. split; [done|].
    intros Hmin Hdiff. rewrite Hgt.
    + subst e r. unfold minutesBetween. rewrite Hmin, Hdiff. by vm_compute.
    + subst e r. unfold minutesBetween. rewrite Hmin, Hdiff. by vm_compute.
Qed.

(** ** Upsert by url *)

Lemma urlsOf_updateSeen url nowIso js :
  urlsOf (db_updateSeen url nowIso js) = urlsOf js.
Proof.
  unfold urlsOf, db_updateSeen. rewrite <- list_fmap_compose.
  apply list_fmap_ext. intros _ j _. simpl. by case_decide.
Qed.

Lemma urlsOf_markNotNew source js : urlsOf (db_markNotNew source js) = urlsOf js.
Proof.
  unfold urlsOf, db_markNotNew. rewrite <- list_fmap_compose.
  apply list_fmap_ext. intros _ j _. simpl. by case_decide.
Qed.

Lemma countUrl_urlsOf url js js' : urlsOf js = urlsOf js' → countUrl url js = countUrl url js'.
Proof.
  unfold countUrl, urlsOf. revert js'.
  induction js as [|j js IH]; intros [|j' js'] Heq; try done.
  simpl in Heq. injection Heq as Hj Hjs.
  rewrite !filter_cons, Hj. case_decide; simpl; by rewrite (IH js').
Qed.

Lemma countUrl_zero url js : url ∉ urlsOf js → countUrl url js = 0%nat.
Proof.
  unfold countUrl, urlsOf. induction js as [|j js IH]; [done|].
  rewrite fmap_cons, not_elem_of_cons. intros [Hne Hnin].
  rewrite filter_cons, decide_False by done. by apply IH.
Qed.

Lemma countUrl_one url js : NoDup (urlsOf js) → url ∈ urlsOf js → countUrl url js = 1%nat.
Proof.
  unfold urlsOf. induction js as [|j js IH]; simpl.
  - intros _ Hin. by apply elem_of_nil in Hin.
  - rewrite NoDup_cons, elem_of_cons. intros [Hnin Hnd] Hin.
    unfold countUrl. rewrite filter_cons. case_decide as Hj.
    + simpl. f_equal. apply countUrl_zero. by rewrite <- Hj.
    + destruct Hin as [->|Hin]; [done|]. by apply IH.
Qed.

Lemma db_selectByUrl_nil url js : db_selectByUrl url js = [] ↔ url ∉ urlsOf js.
Proof.
  unfold db_selectByUrl, urlsOf. induction js as [|j js IH]; simpl.
  - split; [intros _; apply not_elem_of_nil|done].
  - rewrite filter_cons, not_elem_of_cons. case_decide as Hj; simpl.
    + split; [done|]. intros [Hne _]. by destruct Hne.
    + rewrite IH. split; [intros ?; split; [congruence|done]|by intros [_ ?]].
Qed.

Lemma upsertJob_found scrapedJob w n :
  sj_url scrapedJob ∈ urlsOf (w_jobs w) →
  upsertJob scrapedJob (w, n)
    = (set_jobs (db_updateSeen (sj_url scrapedJob) (clock (w_ticks w)) (w_jobs w)) (tick w), n).
Proof.
  intros Hin. unfold upsertJob.
  destruct (db_selectByUrl (sj_url scrapedJob) (w_jobs w)) eqn:Hsel; [|done].
  apply db_selectByUrl_nil in Hsel. done.
Qed.

Lemma upsertJob_fresh scrapedJob w n :
  sj_url scrapedJob ∉ urlsOf (w_jobs w) →
  upsertJob scrapedJob (w, n)
    = (set_jobs (w_jobs w ++ [newJobRow (next_id (job_id <$> w_jobs w)) scrapedJob
                                        (clock (w_ticks w))]) (tick w), S n).
Proof.
  intros Hnin. unfold upsertJob.
  apply db_selectByUrl_nil in Hnin as Hsel. rewrite Hsel.
  unfold db_insertJob. by rewrite decide_False.
Qed.

Lemma next_id_fresh ids : next_id ids ∉ ids.
Proof. apply max_list_not_elem_of_gt. unfold next_id. lia. Qed.

Lemma upsertJob_NoDup scrapedJob w n :
  NoDup (urlsOf (w_jobs w)) → NoDup (urlsOf (w_jobs (upsertJob scrapedJob (w, n)).1)).
Proof.
  intros Hnd. destruct (decide (sj_url scrapedJob ∈ urlsOf (w_jobs w))) as [Hin|Hnin].
  - rewrite upsertJob_found by done. simpl. by rewrite urlsOf_updateSeen.
  - rewrite upsertJob_fresh by done. simpl. unfold urlsOf. rewrite fmap_app. simpl.
    apply NoDup_app. split; [done|]. split; [|apply NoDup_singleton].
    intros u Hu Hu'. apply list_elem_of_singleton in Hu'. by subst u.
Qed.

Lemma upsertLoop_cons scrapedJob records st :
  upsertLoop (scrapedJob :: records) st = upsertLoop records (upsertJob scrapedJob st).
Proof. reflexivity. Qed.

Lemma upsertLoop_NoDup records w n :
  NoDup (urlsOf (w_jobs w)) → NoDup (urlsOf (w_jobs (upsertLoop records (w, n)).1)).
Proof.
  revert w n. induction records as [|sj records IH]; intros w n Hnd; [done|].
  rewrite upsertLoop_cons. pose proof (upsertJob_NoDup sj w n Hnd) as Hnd'.
  destruct (upsertJob sj (w, n)) as [w' n']. by apply IH.
Qed.

(** C2 (amended). One record of the loop of [upsertJobs] is looked up by url.
    When a stored job has the url, the rows with that url get lastSeen =
    updatedAt = now and isNewInLastHour = false, every other column and row
    is kept, no row is added, the count is unchanged, and count(jobs with
    that url) stays 1 on a table with unique urls.  When no stored job has the url, one row is
    appended under a new id with isNewInLastHour = true, firstSeen = lastSeen
    = now, and the role slug of the record or 'other' when the record has
    none, and the count grows by one.  Unique urls stay unique, through one
    record and through a whole call of [upsertJobs]. *)
Theorem upsertJob_by_url (scrapedJob : ScrapedJob) (w : World) (n : nat) :
  let url := sj_url scrapedJob in
  let now := clock (w_ticks w) in
  let w' := (upsertJob scrapedJob (w, n)).1 in
  let n' := (upsertJob scrapedJob (w, n)).2 in
  (url ∈ urlsOf (w_jobs w) →
     n' = n ∧
     w_jobs w' =
       (λ j, if decide (job_url j = url)
             then mkJob (job_id j) (job_title j) (job_company j) (job_location j)
                        (job_url j) (job_description j) (job_salary j) (job_jobType j)
                        (job_postedAt j) (job_roleSlug j) (job_source j)
                        false (job_firstSeen j) now (job_createdAt j) now
             else j) <$> w_jobs w ∧
     length (w_jobs w') = length (w_jobs w) ∧
     (∀ u, countUrl u (w_jobs w') = countUrl u (w_jobs w)) ∧
     (NoDup (urlsOf (w_jobs w)) →
        countUrl url (w_jobs w) = 1%nat ∧ countUrl url (w_jobs w') = 1%nat)) ∧
  (url ∉ urlsOf (w_jobs w) →
     n' = S n ∧
     ∃ id : nat, (id ∉ job_id <$> w_jobs w) ∧
       w_jobs w' = w_jobs w ++
         [mkJob id (sj_title scrapedJob) (sj_company scrapedJob)
                (or_null (sj_location scrapedJob)) url
                (or_null (sj_description scrapedJob)) (or_null (sj_salary scrapedJob))
                (or_null (sj_job_type scrapedJob)) (or_null (sj_posted_at scrapedJob))
                (Some (match sj_role_slug scrapedJob with
                       | None | Some "" => "other"
                       | Some slug => slug
                       end))
                (sj_source scrapedJob) true now now now now]) ∧
  (NoDup (urlsOf (w_jobs w)) → NoDup (urlsOf (w_jobs w'))) ∧
  (∀ result source,
     NoDup (urlsOf (w_jobs w)) → NoDup (urlsOf (w_jobs (upsertJobs result source w).2))).
Proof.
  intros url now w' n'. split; [|split; [|split]].
  - intros Hin. subst w' n'. rewrite upsertJob_found by done. simpl.
    split; [done|]. split; [done|]. split; [apply length_fmap|].
    assert (Hc : ∀ u, countUrl u (db_updateSeen url now (w_jobs w)) = countUrl u (w_jobs w)).
    { intros u. apply countUrl_urlsOf, urlsOf_updateSeen. }
    split; [done|]. intros Hnd. rewrite Hc. split; by apply countUrl_one.
  - intros Hnin. subst w' n'. rewrite upsertJob_fresh by done. simpl.
    split; [done|]. exists (next_id (job_id <$> w_jobs w)).
    split; [apply next_id_fresh|]. do 2 f_equal. unfold newJobRow. f_equal. f_equal.
    unfold js_or. destruct (sj_role_slug scrapedJob) as [slug|]; [|done].
    case_decide as Hs; [by subst slug|]. by destruct slug.
  - apply upsertJob_NoDup.
  - intros result source Hnd. unfold upsertJobs.
    pose proof (upsertLoop_NoDup (sr_jobs result)
                  (set_jobs (db_markNotNew source (w_jobs w)) w) 0%nat) as Hl.
    destruct (upsertLoop _ _) as [w2 c]. simpl in *. apply Hl.
    by rewrite urlsOf_markNotNew.
Qed.

(** ** Freshness through a cycle *)

(** What one record does to a stored row. *)
Lemma upsertJob_row scrapedJob w n i j :
  w_jobs w !! i = Some j →
  w_jobs (upsertJob scrapedJob (w, n)).1 !! i
    = Some (if decide (job_url j = sj_url scrapedJob)
            then set_seen (clock (w_ticks w)) j else j).
Proof.
  intros Hi. destruct (decide (sj_url scrapedJob ∈ urlsOf (w_jobs w))) as [Hin|Hnin].
  - rewrite upsertJob_found by done. simpl. unfold db_updateSeen.
    by rewrite list_lookup_fmap, Hi.
  - rewrite upsertJob_fresh by done. simpl.
    rewrite lookup_app_l by (by eapply lookup_lt_Some).
    rewrite Hi. rewrite decide_False; [done|].
    intros Hu. apply Hnin. rewrite <- Hu. unfold urlsOf.
    apply list_elem_of_fmap. exists j. split; [done|]. by eapply list_elem_of_lookup_2.
Qed.

(** What a batch does to a stored row: identity, source and url are kept; a
    row that no record names is kept whole; a row that some record names,
    or that was not new, is not new afterwards. *)
Lemma upsertLoop_row records w n i j :
  w_jobs w !! i = Some j →
  ∃ j', w_jobs (upsertLoop records (w, n)).1 !! i = Some j' ∧
        job_id j' = job_id j ∧ job_source j' = job_source j ∧ job_url j' = job_url j ∧
        (job_url j ∉ sj_url <$> records → j' = j) ∧
        (job_url j ∈ sj_url <$> records → job_isNewInLastHour j' = false) ∧
        (job_isNewInLastHour j = false → job_isNewInLastHour j' = false).
Proof.
  revert w n j. induction records as [|sj records IH]; intros w n j Hi.
  - exists j. simpl. repeat split; try done. intros H. by apply elem_of_nil in H.
  - rewrite upsertLoop_cons.
    pose proof (upsertJob_row sj w n i j Hi) as Hrow.
    destruct (upsertJob sj (w, n)) as [w1 n1]. simpl in Hrow.
    destruct (IH w1 n1 _ Hrow) as (j' & Hj' & Hid & Hsrc & Hurl & Hkeep & Hnamed & Hold).
    exists j'. split; [done|].
    case_decide as Hj; simpl in *.
    + repeat split; try done.
      * intros Hnin. exfalso. apply Hnin. rewrite Hj. left.
      * intros _. by apply Hold.
      * intros _. by apply Hold.
    + repeat split; try done.
      * intros Hnin. apply Hkeep. intros Hin. apply Hnin. by right.
      * rewrite elem_of_cons. intros [Heq|Hin]; [done|]. by apply Hnamed.
Qed.

Lemma db_markNotNew_row source js i j :
  js !! i = Some j →
  db_markNotNew source js !! i
    = Some (if decide (job_source j = source) then set_isNewInLastHour false j else j).
Proof. intros Hi. unfold db_markNotNew. by rewrite list_lookup_fmap, Hi. Qed.

Lemma upsertJobs_unfold result source w :
  upsertJobs result source w
    = ((length (sr_jobs result),
        (upsertLoop (sr_jobs result) (set_jobs (db_markNotNew source (w_jobs w)) w, 0%nat)).2),
       (upsertLoop (sr_jobs result) (set_jobs (db_markNotNew source (w_jobs w)) w, 0%nat)).1).
Proof. unfold upsertJobs. by destruct (upsertLoop _ _). Qed.

(** C3. [upsertJobs] marks every stored job of the source as not new before
    its loop starts, and no record of the loop makes a stored job new again:
    after the call each job of the source that was stored before it is not
    new.  With an empty record list the call does nothing else: it returns
    totalJobs = 0 and newJobs = 0, and every job of the source is not new. *)
Theorem upsertJobs_marks_source_first (result : ScraperResult) (source : string) (w : World) :
  upsertJobs result source w
    = ((length (sr_jobs result),
        (upsertLoop (sr_jobs result) (set_jobs (db_markNotNew source (w_jobs w)) w, 0%nat)).2),
       (upsertLoop (sr_jobs result) (set_jobs (db_markNotNew source (w_jobs w)) w, 0%nat)).1) ∧
  (∀ i j, w_jobs w !! i = Some j →
     db_markNotNew source (w_jobs w) !! i
       = Some (if decide (job_source j = source) then set_isNewInLastHour false j else j)) ∧
  (∀ i j, w_jobs w !! i = Some j → job_source j = source →
     ∃ j', w_jobs (upsertJobs result source w).2 !! i = Some j' ∧
           job_id j' = job_id j ∧ job_isNewInLastHour j' = false) ∧
  (sr_jobs result = [] →
     (upsertJobs result source w).1 = (0%nat, 0%nat) ∧
     (upsertJobs result source w).2 = set_jobs (db_markNotNew source (w_jobs w)) w ∧
     ∀ j, j ∈ w_jobs (upsertJobs result source w).2 → job_source j = source →
          job_isNewInLastHour j = false).
Proof.
  split; [apply upsertJobs_unfold|]. split; [intros; by apply db_markNotNew_row|]. split.
  - intros i j Hi Hsrc. rewrite upsertJobs_unfold. simpl.
    pose proof (db_markNotNew_row source _ i j Hi) as Hm.
    rewrite decide_True in Hm by done.
    destruct (upsertLoop_row (sr_jobs result)
                (set_jobs (db_markNotNew source (w_jobs w)) w) 0%nat i _ Hm)
      as (j' & Hj' & Hid & _ & _ & _ & _ & Hold).
    exists j'. split; [done|]. split; [done|]. by apply Hold.
  - intros Hnil. rewrite upsertJobs_unfold, Hnil. simpl. split; [done|]. split; [done|].
    intros j Hin Hsrc. unfold db_markNotNew in Hin.
    apply list_elem_of_fmap in Hin as (j0 & -> & _).
    case_decide as Hj; [done|]. done.
Qed.

(** Every url of the batch is stored after the loop, and stored urls stay. *)
Lemma upsertJob_urls_mono scrapedJob w n u :
  u ∈ urlsOf (w_jobs w) → u ∈ urlsOf (w_jobs (upsertJob scrapedJob (w, n)).1).
Proof.
  intros Hu. destruct (decide (sj_url scrapedJob ∈ urlsOf (w_jobs w))) as [Hin|Hnin].
  - rewrite upsertJob_found by done. simpl. by rewrite urlsOf_updateSeen.
  - rewrite upsertJob_fresh by done. simpl. unfold urlsOf. rewrite fmap_app.
    apply elem_of_app. by left.
Qed.

Lemma upsertJob_url_stored scrapedJob w n :
  sj_url scrapedJob ∈ urlsOf (w_jobs (upsertJob scrapedJob (w, n)).1).
Proof.
  destruct (decide (sj_url scrapedJob ∈ urlsOf (w_jobs w))) as [Hin|Hnin].
  - by apply upsertJob_urls_mono.
  - rewrite upsertJob_fresh by done. simpl. unfold urlsOf. rewrite fmap_app.
    apply elem_of_app. right. simpl. left.
Qed.

Lemma upsertLoop_urls_mono records w n u :
  u ∈ urlsOf (w_jobs w) → u ∈ urlsOf (w_jobs (upsertLoop records (w, n)).1).
Proof.
  revert w n. induction records as [|sj records IH]; intros w n Hu; [done|].
  rewrite upsertLoop_cons. pose proof (upsertJob_urls_mono sj w n u Hu) as Hu'.
  destruct (upsertJob sj (w, n)) as [w1 n1]. by apply IH.
Qed.

Lemma upsertLoop_urls_stored records w n u :
  u ∈ sj_url <$> records → u ∈ urlsOf (w_jobs (upsertLoop records (w, n)).1).
Proof.
  revert w n. induction records as [|sj records IH]; intros w n Hu.
  - by apply elem_of_nil in Hu.
  - rewrite upsertLoop_cons. rewrite fmap_cons, elem_of_cons in Hu.
    pose proof (upsertJob_url_stored sj w n) as Hs.
    destruct (upsertJob sj (w, n)) as [w1 n1] eqn:Hup.
    destruct Hu as [->|Hu]; [by apply upsertLoop_urls_mono|by apply IH].
Qed.

(** A batch whose urls are all stored adds no row and counts nothing. *)
Lemma upsertLoop_all_stored records w n :
  (∀ u, u ∈ sj_url <$> records → u ∈ urlsOf (w_jobs w)) →
  (upsertLoop records (w, n)).2 = n ∧
  length (w_jobs (upsertLoop records (w, n)).1) = length (w_jobs w).
Proof.
  revert w n. induction records as [|sj records IH]; intros w n Hall; [done|].
  rewrite upsertLoop_cons.
  assert (Hin : sj_url sj ∈ urlsOf (w_jobs w)) by (apply Hall; left).
  rewrite upsertJob_found by done.
  destruct (IH (set_jobs (db_updateSeen (sj_url sj) (clock (w_ticks w)) (w_jobs w)) (tick w)) n)
    as [Hn Hlen].
  - intros u Hu. simpl. rewrite urlsOf_updateSeen. apply Hall. by right.
  - split; [done|]. rewrite Hlen. simpl. apply length_fmap.
Qed.

(** C4. Two calls of [upsertJobs] in a row with the same result and source:
    the second call returns newJobs = 0, adds no row, and afterwards every
    stored job whose url is one of the result's records is not new. *)
Theorem upsertJobs_twice (result : ScraperResult) (source : string) (w : World) :
  let w1 := (upsertJobs result source w).2 in
  let stats2 := (upsertJobs result source w1).1 in
  let w2 := (upsertJobs result source w1).2 in
  stats2 = (length (sr_jobs result), 0%nat) ∧
  length (w_jobs w2) = length (w_jobs w1) ∧
  ∀ j, j ∈ w_jobs w2 → job_url j ∈ sj_url <$> sr_jobs result →
       job_isNewInLastHour j = false.
Proof.
  intros w1 stats2 w2.
  assert (Hstored : ∀ u, u ∈ sj_url <$> sr_jobs result →
            u ∈ urlsOf (w_jobs (set_jobs (db_markNotNew source (w_jobs w1)) w1))).
  { intros u Hu. simpl. rewrite urlsOf_markNotNew. subst w1.
    rewrite upsertJobs_unfold. simpl. by apply upsertLoop_urls_stored. }
  destruct (upsertLoop_all_stored _ _ 0%nat Hstored) as [Hn Hlen].
  subst stats2 w2. rewrite upsertJobs_unfold. simpl. rewrite Hn.
  split; [done|]. split.
  { rewrite Hlen. simpl. unfold db_markNotNew. apply length_fmap. }
  intros j Hj Hurl.
  apply list_elem_of_lookup in Hj as [i Hi].
  assert (Hlt : (i < length (db_markNotNew source (w_jobs w1)))%nat).
  { apply lookup_lt_Some in Hi. rewrite Hlen in Hi. exact Hi. }
  apply lookup_lt_is_Some in Hlt as [j0 Hj0].
  destruct (upsertLoop_row (sr_jobs result)
              (set_jobs (db_markNotNew source (w_jobs w1)) w1) 0%nat i j0 Hj0)
    as (j' & Hj' & _ & _ & Hu & _ & Hnamed & _).
  rewrite Hi in Hj'. injection Hj' as <-.
  apply Hnamed. by rewrite <- Hu.
Qed.

(** ** What each step leaves untouched *)

Lemma canRunScraper_frame source w :
  (canRunScraper source w).2 = set_ticks (w_ticks (canRunScraper source w).2) w.
Proof.
  unfold canRunScraper. destruct (lastCompletedRun _ _) as [|r ?]; [by destruct w|].
  destruct (run_completedAt r); [|by destruct w].
  by destruct (negb _).
Qed.

Lemma set_ticks_set_ticks k k' w : set_ticks k (set_ticks k' w) = set_ticks k w.
Proof. done. Qed.

Lemma checkSources_frame sources w :
  (checkSources sources w).2 = set_ticks (w_ticks (checkSources sources w).2) w.
Proof.
  revert w. induction sources as [|src rest IH]; intros w; [by destruct w|].
  simpl. pose proof (canRunScraper_frame src w) as Hf.
  destruct (canRunScraper src w) as [[canRun m] w1]. simpl in Hf.
  destruct canRun; simpl; [|done].
  rewrite IH. rewrite Hf at 2. by rewrite set_ticks_set_ticks.
Qed.

(** The loop stops at the first check that refuses. *)
Lemma checkSources_blocked sources w :
  Exists (λ c, (canRunScraper c.1 c.2).1.1 = false) (gateChecks sources w) →
  ∃ src m wi, (src, wi) ∈ gateChecks sources w ∧
              canRunScraper src wi = ((false, m), (checkSources sources w).2) ∧
              (checkSources sources w).1 = Some (src, m).
Proof.
  revert w. induction sources as [|src rest IH]; intros w Hex; simpl in Hex.
  - by apply Exists_nil in Hex.
  - simpl. destruct (canRunScraper src w) as [[canRun m] w1] eqn:Hc.
    destruct canRun; simpl.
    + apply Exists_cons in Hex as [Hhd|Htl].
      * simpl in Hhd. by rewrite Hc in Hhd.
      * simpl in Htl. destruct (IH w1 Htl) as (src' & m' & wi & Hin & Hcan & Hres).
        exists src', m', wi. split; [by right|done].
    + exists src, m, w. split; [left|]. by rewrite Hc.
Qed.

(** C5. When the check of some effective source refuses the run,
    [runScraperWorkflow] resolves with success = false and the message that
    names the first refused source and its minutes to wait, and the world it
    leaves differs from the world of the call in the count of clock readings
    only: no row of [scraper_runs] or [jobs] is written, no process is
    spawned and no timer is set. *)
Theorem runScraperWorkflow_blocked (source : SourceSel) (keyword : string)
    (isManualTrigger : bool) (w : World) :
  Exists (λ c, (canRunScraper c.1 c.2).1.1 = false) (gateChecks (sourcesOf source) w) →
  ∃ src m wi w',
    (src, wi) ∈ gateChecks (sourcesOf source) w ∧
    (canRunScraper src wi).1 = (false, m) ∧
    runScraperWorkflow source keyword isManualTrigger w
      = (Resolved (mkWorkflowResult false
                     ("Must wait " +:+ pretty m +:+ " more minutes before running "
                        +:+ src +:+ " scraper") None), w') ∧
    w' = set_ticks (w_ticks w') w ∧
    w_runs w' = w_runs w ∧ w_ledgerLog w' = w_ledgerLog w ∧
    w_spawned w' = w_spawned w ∧ w_jobs w' = w_jobs w ∧
    w_activeSchedules w' = w_activeSchedules w.
Proof.
  intros Hex. destruct (checkSources_blocked _ _ Hex) as (src & m & wi & Hin & Hcan & Hres).
  pose proof (checkSources_frame (sourcesOf source) w) as Hf.
  exists src, m, wi, (checkSources (sourcesOf source) w).2.
  split; [done|]. split; [by rewrite Hcan|]. split.
  - unfold runScraperWorkflow.
    destruct (checkSources (sourcesOf source) w) as [[[src' m']|] w1]; simpl in *; [|done].
    by injection Hres as -> ->.
  - split; [done|]. by rewrite Hf.
Qed.

Lemma upsertJob_frame scrapedJob w n :
  let w' := (upsertJob scrapedJob (w, n)).1 in
  w_runs w' = w_runs w ∧ w_ledgerLog w' = w_ledgerLog w ∧
  w_spawned w' = w_spawned w ∧ w_activeSchedules w' = w_activeSchedules w ∧
  (w_ticks w ≤ w_ticks w')%nat.
Proof.
  unfold upsertJob. destruct (db_selectByUrl _ _); simpl.
  - destruct (db_insertJob _ _ _); simpl; repeat split; lia.
  - repeat split; lia.
Qed.

Lemma upsertLoop_frame records w n :
  let w' := (upsertLoop records (w, n)).1 in
  w_runs w' = w_runs w ∧ w_ledgerLog w' = w_ledgerLog w ∧
  w_spawned w' = w_spawned w ∧ w_activeSchedules w' = w_activeSchedules w ∧
  (w_ticks w ≤ w_ticks w')%nat.
Proof.
  revert w n. induction records as [|sj records IH]; intros w n; [by repeat split|].
  rewrite upsertLoop_cons.
  pose proof (upsertJob_frame sj w n) as (Hr & Hl & Hs & Ha & Ht).
  destruct (upsertJob sj (w, n)) as [w1 n1]. simpl in *.
  destruct (IH w1 n1) as (Hr' & Hl' & Hs' & Ha' & Ht'). simpl in *.
  repeat split; try congruence. lia.
Qed.

Lemma upsertJobs_frame result source w :
  let w' := (upsertJobs result source w).2 in
  w_runs w' = w_runs w ∧ w_ledgerLog w' = w_ledgerLog w ∧
  w_spawned w' = w_spawned w ∧ w_activeSchedules w' = w_activeSchedules w ∧
  (w_ticks w ≤ w_ticks w')%nat.
Proof.
  rewrite upsertJobs_unfold. simpl.
  apply (upsertLoop_frame (sr_jobs result) (set_jobs (db_markNotNew source (w_jobs w)) w)).
Qed.

Lemma runPythonScraper_frame keyword source w :
  let w' := (runPythonScraper keyword source w).2 in
  w_runs w' = w_runs w ∧ w_ledgerLog w' = w_ledgerLog w ∧ w_jobs w' = w_jobs w ∧
  w_ticks w' = w_ticks w ∧ w_activeSchedules w' = w_activeSchedules w ∧
  w_spawned w' = w_spawned w ++ [PYTHON_PATH :: scraperArgs keyword source].
Proof. unfold runPythonScraper. by destruct (python _ _). Qed.

(** ** The ledger *)

(** An update by the id of the row just inserted touches that row only. *)
Lemma update_inserted_run (f : ScraperRun → ScraperRun) runs r :
  run_id r = next_id (run_id <$> runs) →
  ((λ r', if decide (run_id r' = run_id r) then f r' else r') <$> (runs ++ [r]))
    = runs ++ [f r].
Proof.
  intros Hid. rewrite fmap_app. simpl. rewrite decide_True by done. f_equal.
  rewrite <- (list_fmap_id runs) at 2. apply list_fmap_ext. intros i r' Hi.
  rewrite decide_False; [done|]. intros Heq.
  apply (next_id_fresh (run_id <$> runs)). rewrite <- Hid, <- Heq.
  apply list_elem_of_fmap. exists r'. split; [done|]. by eapply list_elem_of_lookup_2.
Qed.

(** The shape of every call: either the gate refuses and nothing is written,
    or a running row is inserted and the scraper is started; the call then
    stays pending with the scraper, or closes the row as failed when the
    scraper rejects, or upserts the result and closes the row as completed. *)
Lemma runScraperWorkflow_shape source keyword isManualTrigger w :
  let res := (runScraperWorkflow source keyword isManualTrigger w).1 in
  let w' := (runScraperWorkflow source keyword isManualTrigger w).2 in
  let w1 := (checkSources (sourcesOf source) w).2 in
  let r0 := newRunRecord (w_runs w1) (source_name source) (clock (w_ticks w1)) in
  let scraped := (runPythonScraper keyword source (db_insertRun r0 (tick w1))).1 in
  w_runs w1 = w_runs w ∧
  (((checkSources (sourcesOf source) w).1 ≠ None ∧ w' = w1) ∨
   ((checkSources (sourcesOf source) w).1 = None ∧
    ((scraped = Pending ∧ res = Pending ∧
      w_jobs w' = w_jobs w ∧
      w_ledgerLog w' = w_ledgerLog w ++ [InsertRun r0] ∧
      w_runs w' = w_runs w ++ [r0]) ∨
     (∃ msg t, scraped = Rejected msg ∧
        res = Resolved (mkWorkflowResult false ("Scraper failed: " +:+ msg) None) ∧
        w_jobs w' = w_jobs w ∧
        w_ledgerLog w' = w_ledgerLog w ++ [InsertRun r0; UpdateRun (run_id r0) failed] ∧
        w_runs w' = w_runs w ++ [set_failed t msg r0]) ∨
     (∃ result w3 t, scraped = Resolved result ∧
        w_jobs w3 = w_jobs w ∧
        let out := upsertJobs result (source_name source) w3 in
        res = Resolved (mkWorkflowResult true "Scraper completed successfully" (Some out.1)) ∧
        w_jobs w' = w_jobs out.2 ∧
        w_ledgerLog w' = w_ledgerLog w ++ [InsertRun r0; UpdateRun (run_id r0) completed] ∧
        w_runs w' = w_runs w ++ [set_completed t out.1.1 out.1.2 r0])))).
Proof.
  intros res w' w1 r0 scraped. subst res w' scraped. unfold runScraperWorkflow.
  pose proof (checkSources_frame (sourcesOf source) w) as Hf. fold w1 in Hf.
  assert (Hruns : w_runs w1 = w_runs w) by (by rewrite Hf).
  assert (Hlog : w_ledgerLog w1 = w_ledgerLog w) by (by rewrite Hf).
  assert (Hjobs : w_jobs w1 = w_jobs w) by (by rewrite Hf).
  split; [done|].
  subst r0. revert Hruns Hlog Hjobs. clear Hf. subst w1.
  destruct (checkSources (sourcesOf source) w) as [[[src m]|] w1]; simpl;
    intros Hruns Hlog Hjobs.
  { by left. }
  right. split; [done|]. rewrite <- Hruns, <- Hlog, <- Hjobs.
  set (r0 := newRunRecord (w_runs w1) (source_name source) (clock (w_ticks w1))).
  pose proof (runPythonScraper_frame keyword source (db_insertRun r0 (tick w1)))
    as (Hr & Hl & Hj & _).
  destruct (runPythonScraper keyword source (db_insertRun r0 (tick w1)))
    as [[result|msg|] w3] eqn:Hpy; simpl in Hr, Hl, Hj.
  - right. right. exists result, w3.
    pose proof (upsertJobs_frame result (source_name source) w3) as (Hr' & Hl' & _).
    destruct (upsertJobs result (source_name source) w3) as [stats w4] eqn:Hup.
    simpl in Hr', Hl'. exists (clock (w_ticks w4)). simpl.
    split; [done|]. split; [done|]. split; [done|]. split; [by destruct isManualTrigger|].
    split.
    + destruct isManualTrigger; simpl; rewrite Hl', Hl; by rewrite <- app_assoc.
    + destruct isManualTrigger; simpl; rewrite Hr', Hr;
        by apply (update_inserted_run
                    (set_completed (clock (w_ticks w4)) stats.1 stats.2) (w_runs w1) r0).
  - right. left. exists msg, (clock (w_ticks w3)). simpl.
    split; [done|]. split; [done|]. split; [done|]. split.
    + rewrite Hl. by rewrite <- app_assoc.
    + rewrite Hr.
      by apply (update_inserted_run (set_failed (clock (w_ticks w3)) msg) (w_runs w1) r0).
  - left. simpl. by rewrite Hr, Hl.
Qed.

(** C6. A call of [runScraperWorkflow] that passes the gate inserts one row
    of [scraper_runs], with status running and no completedAt, and, when the
    scraper settles, closes that row by one update, to completed or to failed
    with completedAt set.  Those are its only writes to the table: the rows
    stored before the call are left as they were, so a closed row is never
    written again, and completedAt is set on exactly the rows that are not
    running. *)
Theorem runScraperWorkflow_ledger (source : SourceSel) (keyword : string)
    (isManualTrigger : bool) (w : World) :
  let res := (runScraperWorkflow source keyword isManualTrigger w).1 in
  let w' := (runScraperWorkflow source keyword isManualTrigger w).2 in
  ((w_ledgerLog w' = w_ledgerLog w ∧ w_runs w' = w_runs w) ∨
   (∃ r0,
      run_status r0 = running ∧ run_completedAt r0 = None ∧
      (run_id r0 ∉ run_id <$> w_runs w) ∧
      ((res = Pending ∧
        w_ledgerLog w' = w_ledgerLog w ++ [InsertRun r0] ∧
        w_runs w' = w_runs w ++ [r0]) ∨
       (∃ r1 wr, res = Resolved wr ∧
          w_ledgerLog w' = w_ledgerLog w ++ [InsertRun r0; UpdateRun (run_id r0) (run_status r1)] ∧
          w_runs w' = w_runs w ++ [r1] ∧
          run_id r1 = run_id r0 ∧ run_source r1 = run_source r0 ∧
          run_startedAt r1 = run_startedAt r0 ∧
          (run_status r1 = completed ∨ run_status r1 = failed) ∧
          is_Some (run_completedAt r1))))) ∧
  (Forall closedIffDated (w_runs w) → Forall closedIffDated (w_runs w')).
Proof.
  intros res w'.
  pose proof (checkSources_frame (sourcesOf source) w) as Hf.
  destruct (runScraperWorkflow_shape source keyword isManualTrigger w) as [Hruns Hshape].
  fold w' res in Hshape.
  set (w1 := (checkSources (sourcesOf source) w).2) in *.
  set (r0 := newRunRecord (w_runs w1) (source_name source) (clock (w_ticks w1))) in *.
  assert (Hfresh : run_id r0 ∉ run_id <$> w_runs w).
  { subst r0. simpl. rewrite Hruns. apply next_id_fresh. }
  assert (Hdated0 : closedIffDated r0).
  { unfold closedIffDated. simpl. split; [by intros [? ?]|done]. }
  destruct Hshape as [[_ Hw']|[_ [(_ & Hres & _ & Hl & Hr)|
    [(msg & t & _ & Hres & _ & Hl & Hr)|(result & w3 & t & _ & _ & Hres & _ & Hl & Hr)]]]].
  - split; [left; rewrite Hw', Hf; done|]. rewrite Hw', Hf. done.
  - split.
    + right. exists r0. split; [done|]. split; [done|]. split; [done|]. by left.
    + intros Hall. rewrite Hr. apply Forall_app. split; [done|].
      constructor; [done|constructor].
  - split.
    + right. exists r0. split; [done|]. split; [done|]. split; [done|]. right.
      eexists (set_failed t msg r0), _. split; [exact Hres|].
      simpl. repeat split; eauto.
    + intros Hall. rewrite Hr. apply Forall_app. split; [done|].
      constructor; [|constructor]. unfold closedIffDated. simpl. split; [done|eauto].
  - split.
    + right. exists r0. split; [done|]. split; [done|]. split; [done|]. right.
      eexists (set_completed t _ _ r0), _. split; [exact Hres|].
      simpl. repeat split; eauto.
    + intros Hall. rewrite Hr. apply Forall_app. split; [done|].
      constructor; [|constructor]. unfold closedIffDated. simpl. split; [done|eauto].
Qed.

(** ** The scraper's outcome *)

Lemma runPythonScraper_outcome keyword source w :
  (runPythonScraper keyword source w).1
    = match python (length (w_spawned w)) (scraperArgs keyword source) with
      | Closed code stdoutData stderrData => on_close code stdoutData stderrData
      | SpawnError message => Rejected message
      | NeverCloses => Pending
      end.
Proof. unfold runPythonScraper. by destruct (python _ _). Qed.

Lemma checkSources_spawned sources w :
  w_spawned (checkSources sources w).2 = w_spawned w.
Proof. by rewrite checkSources_frame. Qed.

(** C7. The process closes with code 0 after writing the document
    {success: false, error: 'blocked'}: [runPythonScraper] rejects with the
    message blocked; a call of [runScraperWorkflow] that passed the gate
    closes its row as failed with error blocked and completedAt set, and
    resolves (it does not reject) with success = false. *)
Theorem runScraperWorkflow_reported_failure (source : SourceSel) (keyword : string)
    (isManualTrigger : bool) (w : World) (stderrData : string) (result : ScraperResult) :
  python (length (w_spawned w)) (scraperArgs keyword source)
    = Closed (Some 0) blockedDocument stderrData →
  JSON_parse blockedDocument = Some result →
  sr_success result = false →
  sr_error result = Some "blocked" →
  (runPythonScraper keyword source w).1 = Rejected "blocked" ∧
  ((checkSources (sourcesOf source) w).1 = None →
   let out := runScraperWorkflow source keyword isManualTrigger w in
   out.1 = Resolved (mkWorkflowResult false "Scraper failed: blocked" None) ∧
   ∃ r0 r1,
     w_runs out.2 = w_runs w ++ [r1] ∧
     w_ledgerLog out.2 = w_ledgerLog w ++ [InsertRun r0; UpdateRun (run_id r0) failed] ∧
     run_id r1 = run_id r0 ∧ run_status r0 = running ∧
     run_status r1 = failed ∧ run_error r1 = Some "blocked" ∧
     is_Some (run_completedAt r1)).
Proof.
  intros Hpy Hparse Hsucc Herr.
  assert (Hrej : ∀ w0, w_spawned w0 = w_spawned w →
            (runPythonScraper keyword source w0).1 = Rejected "blocked").
  { intros w0 Hsp. rewrite runPythonScraper_outcome, Hsp, Hpy.
    unfold on_close. rewrite decide_True by done.
    by rewrite Hparse, Hsucc, Herr. }
  split; [by apply Hrej|]. intros Hgate out.
  destruct (runScraperWorkflow_shape source keyword isManualTrigger w) as [_ Hshape].
  fold out in Hshape.
  set (w1 := (checkSources (sourcesOf source) w).2) in *.
  set (r0 := newRunRecord (w_runs w1) (source_name source) (clock (w_ticks w1))) in *.
  rewrite (Hrej (db_insertRun r0 (tick w1))) in Hshape
    by (simpl; subst w1; apply checkSources_spawned).
  destruct Hshape as [[Hne _]|[_ [(Hp & _)|
    [(msg & t & Hm & Hres & _ & Hl & Hr)|(res & w3 & t & Hm & _)]]]]; try done.
  injection Hm as <-.
  split; [done|]. exists r0, (set_failed t "blocked" r0).
  split; [done|]. split; [done|]. simpl. repeat split; eauto.
Qed.

(** C8 (amended). [runPythonScraper] sets no deadline and ends no process: it
    settles exactly when the process emits close or error, and every
    rejection answers one of the two.  While the process emits neither, the
    promise of [runPythonScraper] stays pending, and a call of
    [runScraperWorkflow] that passed the gate stays pending with it, its row
    of [scraper_runs] left running. *)
Theorem runPythonScraper_no_deadline (source : SourceSel) (keyword : string)
    (isManualTrigger : bool) (w : World) :
  ((runPythonScraper keyword source w).1 = Pending ↔
   python (length (w_spawned w)) (scraperArgs keyword source) = NeverCloses) ∧
  (∀ msg, (runPythonScraper keyword source w).1 = Rejected msg →
     (∃ code stdoutData stderrData,
        python (length (w_spawned w)) (scraperArgs keyword source)
          = Closed code stdoutData stderrData) ∨
     python (length (w_spawned w)) (scraperArgs keyword source) = SpawnError msg) ∧
  (python (length (w_spawned w)) (scraperArgs keyword source) = NeverCloses →
   (checkSources (sourcesOf source) w).1 = None →
   (runScraperWorkflow source keyword isManualTrigger w).1 = Pending ∧
   ∃ r0, w_runs (runScraperWorkflow source keyword isManualTrigger w).2 = w_runs w ++ [r0] ∧
         run_status r0 = running ∧ run_completedAt r0 = None).
Proof.
  split; [|split].
  - rewrite runPythonScraper_outcome.
    destruct (python _ _) as [code out err| |]; [|done|done].
    split; [|done]. unfold on_close. case_decide; [|done].
    destruct (JSON_parse out) as [r|]; [|done]. by destruct (negb _).
  - intros msg. rewrite runPythonScraper_outcome.
    destruct (python _ _) as [code out err|m|]; [by eauto| |done].
    intros [= ->]. by right.
  - intros Hpy Hgate.
    destruct (runScraperWorkflow_shape source keyword isManualTrigger w) as [_ Hshape].
    set (w1 := (checkSources (sourcesOf source) w).2) in *.
    set (r0 := newRunRecord (w_runs w1) (source_name source) (clock (w_ticks w1))) in *.
    assert (Hp : (runPythonScraper keyword source (db_insertRun r0 (tick w1))).1 = Pending).
    { rewrite runPythonScraper_outcome. simpl. subst w1.
      by rewrite checkSources_spawned, Hpy. }
    rewrite Hp in Hshape.
    destruct Hshape as [[Hne _]|[_ [(_ & Hres & _ & _ & Hr)|
      [(msg & t & Hm & _)|(res & w3 & t & Hm & _)]]]]; try done.
    split; [done|]. by exists r0.
Qed.

(** ** A cycle for all sources *)

Lemma upsertJob_length scrapedJob w n :
  (length (w_jobs w) ≤ length (w_jobs (upsertJob scrapedJob (w, n)).1))%nat.
Proof.
  destruct (decide (sj_url scrapedJob ∈ urlsOf (w_jobs w))) as [Hin|Hnin].
  - rewrite upsertJob_found by done. simpl. unfold db_updateSeen. by rewrite length_fmap.
  - rewrite upsertJob_fresh by done. simpl. rewrite length_app. lia.
Qed.

(** A row that one record adds carries the source and the url of the record. *)
Lemma upsertJob_new_row scrapedJob w n i j :
  (length (w_jobs w) ≤ i)%nat →
  w_jobs (upsertJob scrapedJob (w, n)).1 !! i = Some j →
  job_source j = sj_source scrapedJob ∧ job_url j = sj_url scrapedJob.
Proof.
  intros Hlen. destruct (decide (sj_url scrapedJob ∈ urlsOf (w_jobs w))) as [Hin|Hnin].
  - rewrite upsertJob_found by done. simpl. intros Hi.
    apply lookup_lt_Some in Hi. unfold db_updateSeen in Hi. rewrite length_fmap in Hi. lia.
  - rewrite upsertJob_fresh by done. simpl. intros Hi.
    rewrite lookup_app_r in Hi by done.
    apply list_lookup_singleton_Some in Hi as [_ <-]. done.
Qed.

Lemma upsertLoop_new_row records w n i j :
  (length (w_jobs w) ≤ i)%nat →
  w_jobs (upsertLoop records (w, n)).1 !! i = Some j →
  ∃ scrapedJob, scrapedJob ∈ records ∧
    job_source j = sj_source scrapedJob ∧ job_url j = sj_url scrapedJob.
Proof.
  revert w n. induction records as [|sj records IH]; intros w n Hlen Hi.
  - simpl in Hi. apply lookup_lt_Some in Hi. lia.
  - rewrite upsertLoop_cons in Hi.
    pose proof (upsertJob_new_row sj w n i) as Hnew.
    destruct (upsertJob sj (w, n)) as [w1 n1]. simpl in Hnew.
    destruct (decide (length (w_jobs w1) ≤ i)%nat) as [Hge|Hlt].
    + destruct (IH w1 n1 Hge Hi) as (sj' & Hin & Hs & Hu).
      exists sj'. split; [by right|done].
    + assert (is_Some (w_jobs w1 !! i)) as [j1 Hj1] by (apply lookup_lt_is_Some; lia).
      destruct (Hnew j1 Hlen Hj1) as [Hs1 Hu1].
      destruct (upsertLoop_row records w1 n1 i j1 Hj1) as (j' & Hj' & _ & Hs & Hu & _).
      rewrite Hi in Hj'. injection Hj' as <-.
      exists sj. split; [left|]. by rewrite Hs, Hu.
Qed.

(** C9. The clearing update of a cycle run for source all names the rows
    whose source is the text all.  A stored job of any other source that no
    record of the batch names is the same row after [upsertJobs] and after
    the whole call of [runScraperWorkflow]: if it was new, it is still new.
    The rows the cycle adds carry the sources of their records. *)
Theorem all_cycle_keeps_new (keyword : string) (isManualTrigger : bool) (w : World)
    (i : nat) (j : Job) :
  w_jobs w !! i = Some j →
  job_source j ≠ "all" →
  db_markNotNew (source_name all) (w_jobs w) !! i = Some j ∧
  (∀ result,
     job_url j ∉ sj_url <$> sr_jobs result →
     w_jobs (upsertJobs result (source_name all) w).2 !! i = Some j) ∧
  (∀ result i' j',
     (length (w_jobs w) ≤ i')%nat →
     w_jobs (upsertJobs result (source_name all) w).2 !! i' = Some j' →
     ∃ scrapedJob, scrapedJob ∈ sr_jobs result ∧ job_source j' = sj_source scrapedJob) ∧
  ((∀ result w0, w_spawned w0 = w_spawned w →
      (runPythonScraper keyword all w0).1 = Resolved result →
      job_url j ∉ sj_url <$> sr_jobs result) →
   w_jobs (runScraperWorkflow all keyword isManualTrigger w).2 !! i = Some j).
Proof.
  intros Hi Hsrc.
  assert (Hmark : ∀ js, js !! i = Some j → db_markNotNew "all" js !! i = Some j).
  { intros js Hjs. rewrite (db_markNotNew_row _ _ _ _ Hjs). by rewrite decide_False. }
  assert (Hups : ∀ result w0, w_jobs w0 !! i = Some j →
            job_url j ∉ sj_url <$> sr_jobs result →
            w_jobs (upsertJobs result "all" w0).2 !! i = Some j).
  { intros result w0 Hw0 Hnin. rewrite upsertJobs_unfold. simpl.
    destruct (upsertLoop_row (sr_jobs result)
                (set_jobs (db_markNotNew "all" (w_jobs w0)) w0) 0%nat i j (Hmark _ Hw0))
      as (j' & Hj' & _ & _ & _ & Hkeep & _).
    by rewrite Hj', (Hkeep Hnin). }
  split; [by apply Hmark|]. split; [intros; by apply Hups|]. split.
  - intros result i' j' Hlen Hi'. simpl in Hi'. rewrite upsertJobs_unfold in Hi'.
    simpl in Hi'.
    destruct (upsertLoop_new_row (sr_jobs result)
                (set_jobs (db_markNotNew "all" (w_jobs w)) w) 0%nat i' j')
      as (sj & Hin & Hs & _); [|done|by exists sj].
    simpl. unfold db_markNotNew. by rewrite length_fmap.
  - intros Hbatch.
    destruct (runScraperWorkflow_shape all keyword isManualTrigger w) as [_ Hshape].
    set (w1 := (checkSources (sourcesOf all) w).2) in *.
    set (r0 := newRunRecord (w_runs w1) (source_name all) (clock (w_ticks w1))) in *.
    destruct Hshape as [[_ Hw']|[_ [(_ & _ & Hj & _)|
      [(msg & t & _ & _ & Hj & _)|(result & w3 & t & Hres & Hj3 & _ & Hj & _)]]]].
    + rewrite Hw'. subst w1. by rewrite checkSources_frame.
    + by rewrite Hj.
    + by rewrite Hj.
    + rewrite Hj. apply Hups; [by rewrite Hj3|].
      apply (Hbatch result (db_insertRun r0 (tick w1))); [|done].
      simpl. subst w1. apply checkSources_spawned.
Qed.

(** ** A run for all sources and the cooldown of one source *)

Lemma completedRunsOf_app source runs runs' :
  completedRunsOf source (runs ++ runs')
    = completedRunsOf source runs ++ completedRunsOf source runs'.
Proof. unfold completedRunsOf. apply filter_app. Qed.

Lemma completedRunsOf_other_source source r :
  run_source r ≠ source → completedRunsOf source [r] = [].
Proof.
  intros Hne. unfold completedRunsOf. rewrite filter_cons, decide_False; [done|].
  by intros [? _].
Qed.

Lemma canRunScraper_same_selection source w w' :
  completedRunsOf source (w_runs w') = completedRunsOf source (w_runs w) →
  w_ticks w' = w_ticks w →
  (canRunScraper source w').1 = (canRunScraper source w).1.
Proof.
  intros Hsel Ht. unfold canRunScraper, lastCompletedRun. rewrite Hsel, Ht.
  destruct (take 1 _) as [|r ?]; [done|].
  destruct (run_completedAt r); [|done]. simpl. by destruct (negb _).
Qed.

Lemma minutesBetween_mono now now' t :
  now ≤ now' → (minutesBetween now t <= minutesBetween now' t)%Q.
Proof.
  intros Hle. unfold minutesBetween.
  apply Qmult_le_compat_r; [|done].
  rewrite <- Zle_Qle. lia.
Qed.

(** Time only helps: a source allowed at one clock reading is allowed at any
    later reading of a clock that does not run backwards, as long as the
    selection of its completed runs is the same. *)
Lemma canRunScraper_allowed_later source w w' :
  (∀ a b, (a ≤ b)%nat → clock a ≤ clock b) →
  completedRunsOf source (w_runs w') = completedRunsOf source (w_runs w) →
  (w_ticks w ≤ w_ticks w')%nat →
  (canRunScraper source w).1.1 = true →
  (canRunScraper source w').1 = (true, 0).
Proof.
  intros Hmono Hsel Ht. unfold canRunScraper, lastCompletedRun. rewrite Hsel.
  destruct (take 1 _) as [|r ?]; [done|].
  destruct (run_completedAt r) as [t|]; [|done]. simpl.
  destruct (Qle_bool _ (minutesBetween (clock (w_ticks w)) t)) eqn:Hb; simpl; [|done].
  intros _. apply Qle_bool_iff in Hb.
  assert (Hb' : Qle_bool (inject_Z (MIN_INTERVAL_HOURS * 60))
                  (minutesBetween (clock (w_ticks w')) t) = true).
  { apply Qle_bool_iff. eapply Qle_trans; [exact Hb|].
    apply minutesBetween_mono, Hmono, Ht. }
  by rewrite Hb'.
Qed.

Lemma canRunScraper_ticks source w :
  (w_ticks w ≤ w_ticks (canRunScraper source w).2)%nat.
Proof.
  unfold canRunScraper. destruct (lastCompletedRun _ _) as [|r ?]; [done|].
  destruct (run_completedAt r); [|done]. destruct (negb _); simpl; lia.
Qed.

Lemma checkSources_ticks sources w :
  (w_ticks w ≤ w_ticks (checkSources sources w).2)%nat.
Proof.
  revert w. induction sources as [|src rest IH]; intros w; [done|].
  simpl. pose proof (canRunScraper_ticks src w) as Ht.
  destruct (canRunScraper src w) as [[canRun m] w1]. simpl in Ht.
  destruct canRun; simpl; [|done]. specialize (IH w1). lia.
Qed.

(** When the loop lets the call through, every source was allowed at its
    check, made on the tables of the call and no later than the end of the
    loop. *)
Lemma checkSources_passed sources w src :
  (checkSources sources w).1 = None →
  src ∈ sources →
  ∃ wi, w_runs wi = w_runs w ∧
        (w_ticks wi ≤ w_ticks (checkSources sources w).2)%nat ∧
        (canRunScraper src wi).1.1 = true.
Proof.
  revert w. induction sources as [|src0 rest IH]; intros w Hpass Hin.
  - by apply elem_of_nil in Hin.
  - simpl in *. pose proof (canRunScraper_frame src0 w) as Hf.
    pose proof (canRunScraper_ticks src0 w) as Ht.
    destruct (canRunScraper src0 w) as [[canRun m] w1] eqn:Hc. simpl in Hf, Ht.
    destruct canRun; simpl in *; [|done].
    apply elem_of_cons in Hin as [->|Hin].
    + exists w. split; [done|]. split.
      * pose proof (checkSources_ticks rest w1). lia.
      * by rewrite Hc.
    + destruct (IH w1 Hpass Hin) as (wi & Hr & Hti & Hcan).
      exists wi. split; [|done]. rewrite Hr, Hf. done.
Qed.

Lemma runScraperWorkflow_ticks source keyword isManualTrigger w :
  (w_ticks (checkSources (sourcesOf source) w).2
     ≤ w_ticks (runScraperWorkflow source keyword isManualTrigger w).2)%nat.
Proof.
  unfold runScraperWorkflow.
  destruct (checkSources (sourcesOf source) w) as [[[src m]|] w1]; simpl; [done|].
  set (r0 := newRunRecord (w_runs w1) (source_name source) (clock (w_ticks w1))).
  pose proof (runPythonScraper_frame keyword source (db_insertRun r0 (tick w1)))
    as (_ & _ & _ & Ht & _).
  destruct (runPythonScraper keyword source (db_insertRun r0 (tick w1)))
    as [[result|msg|] w3]; simpl in Ht.
  - pose proof (upsertJobs_frame result (source_name source) w3) as (_ & _ & _ & _ & Ht').
    destruct (upsertJobs result (source_name source) w3) as [stats w4]. simpl in Ht'.
    destruct isManualTrigger; simpl; lia.
  - simpl. lia.
  - simpl. lia.
Qed.

(** C10. A call of [runScraperWorkflow] for source all that completes closes
    a row whose source is the text all.  [canRunScraper] for any other
    source selects the same completed rows after the call as before it, so at
    equal clock readings it answers the same: the run starts no cooldown for
    linkedin or stepstone.  With a clock that does not run backwards, each of
    the two, allowed by the gate of the call, is allowed again in the world
    the call leaves. *)
Theorem all_run_starts_no_cooldown (keyword : string) (isManualTrigger : bool)
    (w : World) (source : string) :
  source ≠ "all" →
  let out := runScraperWorkflow all keyword isManualTrigger w in
  (∀ wr, out.1 = Resolved wr → wr_success wr = true →
     ∃ r1, w_runs out.2 = w_runs w ++ [r1] ∧
           run_source r1 = "all" ∧ run_status r1 = completed) ∧
  completedRunsOf source (w_runs out.2) = completedRunsOf source (w_runs w) ∧
  (∀ k, (canRunScraper source (set_ticks k out.2)).1
          = (canRunScraper source (set_ticks k w)).1) ∧
  ((∀ a b, (a ≤ b)%nat → clock a ≤ clock b) →
   (checkSources (sourcesOf all) w).1 = None →
   source ∈ sourcesOf all →
   (canRunScraper source out.2).1 = (true, 0)).
Proof.
  intros Hne out.
  destruct (runScraperWorkflow_shape all keyword isManualTrigger w) as [_ Hshape].
  fold out in Hshape.
  set (w1 := (checkSources (sourcesOf all) w).2) in *.
  set (r0 := newRunRecord (w_runs w1) (source_name all) (clock (w_ticks w1))) in *.
  assert (Hsel : completedRunsOf source (w_runs out.2) = completedRunsOf source (w_runs w)).
  { destruct Hshape as [[_ Hw']|[_ [(_ & _ & _ & _ & Hr)|
      [(msg & t & _ & _ & _ & _ & Hr)|(result & w3 & t & _ & _ & _ & _ & _ & Hr)]]]].
    - rewrite Hw'. subst w1. by rewrite checkSources_frame.
    - rewrite Hr, completedRunsOf_app, completedRunsOf_other_source, app_nil_r; [done|].
      simpl. congruence.
    - rewrite Hr, completedRunsOf_app, completedRunsOf_other_source, app_nil_r; [done|].
      simpl. congruence.
    - rewrite Hr, completedRunsOf_app, completedRunsOf_other_source, app_nil_r; [done|].
      simpl. congruence. }
  split; [|split; [done|split]].
  - intros wr Hres Hsucc.
    destruct Hshape as [[Hgate Hw']|[_ [(_ & Hp & _)|
      [(msg & t & _ & Hf & _)|(result & w3 & t & _ & _ & _ & _ & _ & Hr)]]]].
    + exfalso. subst out. unfold runScraperWorkflow in Hres.
      destruct (checkSources (sourcesOf all) w) as [[[src m]|] w2]; simpl in *; [|done].
      injection Hres as <-. done.
    + congruence.
    + rewrite Hres in Hf. injection Hf as ->. done.
    + eexists. split; [exact Hr|]. done.
  - intros k. by apply canRunScraper_same_selection.
  - intros Hmono Hpass Hin.
    destruct (checkSources_passed _ _ _ Hpass Hin) as (wi & Hr & Hti & Hcan).
    apply (canRunScraper_allowed_later source wi out.2 Hmono); [by rewrite Hsel, Hr| |done].
    pose proof (runScraperWorkflow_ticks all keyword isManualTrigger w) as Ht.
    fold out in Ht. lia.
Qed.

(** * More of the service *)

(** ** The schedules *)

Lemma scheduleKeyOf_inj source keyword source' keyword' :
  scheduleKeyOf source keyword = scheduleKeyOf source' keyword' →
  source = source' ∧ keyword = keyword'.
Proof.
  unfold scheduleKeyOf.
  destruct source, source'; simpl; intros H; try discriminate H;
    by simplify_eq.
Qed.


Lemma checkSources_schedules sources w :
  w_activeSchedules (checkSources sources w).2 = w_activeSchedules w.
Proof. by rewrite checkSources_frame. Qed.

Lemma checkSources_jobs sources w : w_jobs (checkSources sources w).2 = w_jobs w.
Proof. by rewrite checkSources_frame. Qed.

(** An automatic run leaves the timers as they were. *)
Lemma runScraperWorkflow_automatic_schedules source keyword w :
  w_activeSchedules (runScraperWorkflow source keyword false w).2 = w_activeSchedules w.
Proof.
  unfold runScraperWorkflow.
  pose proof (checkSources_schedules (sourcesOf source) w) as Hs.
  destruct (checkSources (sourcesOf source) w) as [[[src m]|] w1]; simpl in *; [done|].
  set (r0 := newRunRecord (w_runs w1) (source_name source) (clock (w_ticks w1))).
  pose proof (runPythonScraper_frame keyword source (db_insertRun r0 (tick w1)))
    as (_ & _ & _ & _ & Ha & _).
  destruct (runPythonScraper keyword source (db_insertRun r0 (tick w1)))
    as [[result|msg|] w3]; simpl in Ha; simpl; [|by rewrite Ha, Hs..].
  pose proof (upsertJobs_frame result (source_name source) w3) as (_ & _ & _ & Ha' & _).
  destruct (upsertJobs result (source_name source) w3) as [stats w4]. simpl in *.
  by rewrite Ha', Ha, Hs.
Qed.


Lemma runScraperWorkflow_never_rejects source keyword isManualTrigger w message :
  (runScraperWorkflow source keyword isManualTrigger w).1 ≠ Rejected message.
Proof.
  unfold runScraperWorkflow.
  destruct (checkSources (sourcesOf source) w) as [[[src m]|] w1]; simpl; [done|].
  destruct (runPythonScraper _ _ _) as [[result|msg|] w3]; simpl; [|done|done].
  by destruct (upsertJobs _ _ _).
Qed.


(** ** The scraper process *)

(** X4. [runPythonScraper] spawns PYTHON_PATH once with the script, the
    keyword and the source as arguments.  It resolves exactly when the process
    closes with code 0, its output parses and the document reports success,
    and then with that document.  A process that closes with another code, or
    with none, rejects with the code and the captured stderr in the message,
    whatever it wrote to stdout; output that does not parse rejects with the
    fixed parse message; a failure to spawn rejects with its own message. *)
Theorem runPythonScraper_contract (keyword : string) (source : SourceSel) (w : World) :
  let outcome := python (length (w_spawned w)) (scraperArgs keyword source) in
  w_spawned (runPythonScraper keyword source w).2
    = w_spawned w ++ [[PYTHON_PATH; SCRAPER_PATH; "--keyword=" +:+ keyword;
                       "--source=" +:+ source_name source]] ∧
  (∀ result,
     (runPythonScraper keyword source w).1 = Resolved result ↔
     ∃ stdoutData stderrData,
       outcome = Closed (Some 0) stdoutData stderrData ∧
       JSON_parse stdoutData = Some result ∧ sr_success result = true) ∧
  (∀ code stdoutData stderrData,
     outcome = Closed code stdoutData stderrData → code ≠ Some 0 →
     (runPythonScraper keyword source w).1
       = Rejected ("Scraper failed with code "
                     +:+ match code with Some c => pretty c | None => "null" end
                     +:+ ": " +:+ stderrData)) ∧
  (∀ stdoutData stderrData,
     outcome = Closed (Some 0) stdoutData stderrData → JSON_parse stdoutData = None →
     (runPythonScraper keyword source w).1 = Rejected "Failed to parse scraper JSON output") ∧
  (∀ message,
     outcome = SpawnError message →
     (runPythonScraper keyword source w).1 = Rejected message).
Proof.
  intros outcome. split; [|split; [|split; [|split]]].
  - by destruct (runPythonScraper_frame keyword source w) as (_ & _ & _ & _ & _ & ->).
  - intros result. rewrite runPythonScraper_outcome. fold outcome.
    destruct outcome as [code out err|m|].
    + unfold on_close. case_decide as Hc.
      * destruct (JSON_parse out) as [r|] eqn:Hp.
        -- destruct (sr_success r) eqn:Hs; simpl.
           ++ split.
              ** intros [= <-]. exists out, err. by rewrite Hc.
              ** intros (out' & err' & [= _ <- _] & Hp' & _). congruence.
           ++ split; [done|]. intros (out' & err' & [= _ <- _] & Hp' & Hs'). congruence.
        -- split; [done|]. intros (out' & err' & [= _ <- _] & Hp' & _). congruence.
      * split; [done|]. intros (out' & err' & [= -> _ _] & _). done.
    + split; [done|]. by intros (? & ? & ? & _).
    + split; [done|]. by intros (? & ? & ? & _).
  - intros code out err Ho Hc. rewrite runPythonScraper_outcome. fold outcome.
    rewrite Ho. unfold on_close. by rewrite decide_False.
  - intros out err Ho Hp. rewrite runPythonScraper_outcome. fold outcome.
    rewrite Ho. unfold on_close. rewrite decide_True by done. by rewrite Hp.
  - intros m Ho. rewrite runPythonScraper_outcome. fold outcome. by rewrite Ho.
Qed.


(** ** Counting the new jobs *)

Lemma size_difference_stored (u : string) (batch stored : gset string) :
  u ∈ stored → size (({[u]} ∪ batch) ∖ stored) = size (batch ∖ stored).
Proof.
  intros Hu. f_equal. apply set_eq. intros v.
  rewrite !elem_of_difference, elem_of_union, elem_of_singleton. split.
  - intros [[->|Hv] Hnv]; [done|]. by split.
  - intros [Hv Hnv]. split; [by right|done].
Qed.

Lemma size_difference_fresh (u : string) (batch stored : gset string) :
  u ∉ stored →
  size (({[u]} ∪ batch) ∖ stored) = S (size (batch ∖ (stored ∪ {[u]}))).
Proof.
  intros Hu.
  assert (Heq : ({[u]} ∪ batch) ∖ stored = {[u]} ∪ batch ∖ (stored ∪ {[u]})).
  { apply set_eq. intros v.
    rewrite !elem_of_union, !elem_of_difference, !elem_of_union, !elem_of_singleton.
    destruct (decide (v = u)) as [->|Hne].
    - split; [intros _; by left|]. intros _. split; [by left|done].
    - split.
      + intros [[E|Hb] Hn]; [done|]. right. split; [done|]. by intros [H|H].
      + intros [E|[Hb Hn]]; [done|]. split; [by right|]. intros H. apply Hn. by left. }
  rewrite Heq, size_union, size_singleton; [done|].
  intros v. rewrite elem_of_singleton, elem_of_difference, elem_of_union, elem_of_singleton.
  intros -> [_ Hv]. apply Hv. by right.
Qed.

Lemma upsertLoop_count records w n :
  (upsertLoop records (w, n)).2
    = (n + size (list_to_set (sj_url <$> records) ∖ list_to_set (urlsOf (w_jobs w))
                 : gset string))%nat ∧
  (length (w_jobs (upsertLoop records (w, n)).1) + n
    = length (w_jobs w) + (upsertLoop records (w, n)).2)%nat.
Proof.
  revert w n. induction records as [|sj records IH]; intros w n.
  - simpl. rewrite difference_disjoint_L by (intros v Hv; by apply elem_of_empty in Hv).
    rewrite size_empty. lia.
  - rewrite upsertLoop_cons. rewrite fmap_cons, list_to_set_cons.
    destruct (decide (sj_url sj ∈ urlsOf (w_jobs w))) as [Hin|Hnin].
    + rewrite upsertJob_found by done.
      destruct (IH (set_jobs (db_updateSeen (sj_url sj) (clock (w_ticks w)) (w_jobs w))
                      (tick w)) n) as [Hn Hlen].
      simpl in Hn, Hlen. rewrite urlsOf_updateSeen in Hn.
      unfold db_updateSeen in Hlen. rewrite length_fmap in Hlen.
      split; [|done]. rewrite Hn. f_equal.
      symmetry. apply size_difference_stored. by apply elem_of_list_to_set.
    + rewrite upsertJob_fresh by done.
      destruct (IH (set_jobs (w_jobs w ++ [newJobRow (next_id (job_id <$> w_jobs w)) sj
                                             (clock (w_ticks w))]) (tick w)) (S n))
        as [Hn Hlen].
      simpl in Hn, Hlen. rewrite length_app in Hlen. simpl in Hlen.
      split; [|lia]. rewrite Hn.
      unfold urlsOf. rewrite fmap_app, list_to_set_app_L. simpl.
      rewrite (right_id_L ∅ (∪)). fold (urlsOf (w_jobs w)).
      rewrite size_difference_fresh; [lia|]. by rewrite elem_of_list_to_set.
Qed.

Lemma upsertLoop_count_le records w n :
  ((upsertLoop records (w, n)).2 ≤ n + length records)%nat.
Proof.
  revert w n. induction records as [|sj records IH]; intros w n; [simpl; lia|].
  rewrite upsertLoop_cons.
  destruct (decide (sj_url sj ∈ urlsOf (w_jobs w))) as [Hin|Hnin].
  - rewrite upsertJob_found by done. etransitivity; [apply IH|]. simpl. lia.
  - rewrite upsertJob_fresh by done. etransitivity; [apply IH|]. simpl. lia.
Qed.

(** X6. The counts of [upsertJobs]: totalJobs is the number of records of the
    result, repeated and already stored ones included; newJobs is the number
    of distinct urls of the result that were not stored before the call; it
    is also the number of rows the call adds to [jobs], and never more than
    totalJobs. *)
Theorem upsertJobs_counts (result : ScraperResult) (source : string) (w : World) :
  let stats := (upsertJobs result source w).1 in
  let w' := (upsertJobs result source w).2 in
  stats.1 = length (sr_jobs result) ∧
  stats.2 = size (list_to_set (sj_url <$> sr_jobs result) ∖ list_to_set (urlsOf (w_jobs w))
                  : gset string) ∧
  length (w_jobs w') = (length (w_jobs w) + stats.2)%nat ∧
  (stats.2 ≤ stats.1)%nat.
Proof.
  intros stats w'. subst stats w'. rewrite upsertJobs_unfold. simpl.
  destruct (upsertLoop_count (sr_jobs result)
              (set_jobs (db_markNotNew source (w_jobs w)) w) 0%nat) as [Hn Hlen].
  pose proof (upsertLoop_count_le (sr_jobs result)
                (set_jobs (db_markNotNew source (w_jobs w)) w) 0%nat) as Hle.
  assert (Hm : length (db_markNotNew source (w_jobs w)) = length (w_jobs w))
    by apply length_fmap.
  simpl in Hn, Hlen, Hle. rewrite urlsOf_markNotNew in Hn. rewrite Hm in Hlen.
  split; [done|]. split; [by rewrite Hn|]. split; lia.
Qed.

(** ** What a cycle keeps of a stored job *)

Lemma upsertLoop_row_kept records w n i j :
  w_jobs w !! i = Some j →
  ∃ isNew lastSeen updatedAt,
    w_jobs (upsertLoop records (w, n)).1 !! i
      = Some (mkJob (job_id j) (job_title j) (job_company j) (job_location j) (job_url j)
                    (job_description j) (job_salary j) (job_jobType j) (job_postedAt j)
                    (job_roleSlug j) (job_source j) isNew
                    (job_firstSeen j) lastSeen (job_createdAt j) updatedAt).
Proof.
  revert w n j. induction records as [|sj records IH]; intros w n j Hi.
  - exists (job_isNewInLastHour j), (job_lastSeen j), (job_updatedAt j). by destruct j.
  - rewrite upsertLoop_cons.
    pose proof (upsertJob_row sj w n i j Hi) as Hrow.
    destruct (upsertJob sj (w, n)) as [w1 n1]. simpl in Hrow.
    destruct (IH w1 n1 _ Hrow) as (b & ls & ua & Hj').
    exists b, ls, ua. rewrite Hj'. by case_decide.
Qed.

(** X7. A stored job is never deleted and never rewritten by a cycle: after
    [upsertJobs], and after any call of [runScraperWorkflow], it is at the
    same place with the same id, title, company, location, url, description,
    salary, job type, posted date, role slug, source, firstSeen and createdAt.
    Only lastSeen, updatedAt and the new flag can differ: a revisit does not
    take over the title or any other text of the scraped record. *)
Theorem stored_job_kept (keyword : string) (isManualTrigger : bool) (w : World)
    (i : nat) (j : Job) :
  w_jobs w !! i = Some j →
  (∀ result source,
     ∃ isNew lastSeen updatedAt,
       w_jobs (upsertJobs result source w).2 !! i
         = Some (mkJob (job_id j) (job_title j) (job_company j) (job_location j) (job_url j)
                       (job_description j) (job_salary j) (job_jobType j) (job_postedAt j)
                       (job_roleSlug j) (job_source j) isNew
                       (job_firstSeen j) lastSeen (job_createdAt j) updatedAt)) ∧
  (∀ source,
     ∃ isNew lastSeen updatedAt,
       w_jobs (runScraperWorkflow source keyword isManualTrigger w).2 !! i
         = Some (mkJob (job_id j) (job_title j) (job_company j) (job_location j) (job_url j)
                       (job_description j) (job_salary j) (job_jobType j) (job_postedAt j)
                       (job_roleSlug j) (job_source j) isNew
                       (job_firstSeen j) lastSeen (job_createdAt j) updatedAt)).
Proof.
  intros Hi.
  assert (Hups : ∀ result source w0, w_jobs w0 = w_jobs w →
    ∃ isNew lastSeen updatedAt,
       w_jobs (upsertJobs result source w0).2 !! i
         = Some (mkJob (job_id j) (job_title j) (job_company j) (job_location j) (job_url j)
                       (job_description j) (job_salary j) (job_jobType j) (job_postedAt j)
                       (job_roleSlug j) (job_source j) isNew
                       (job_firstSeen j) lastSeen (job_createdAt j) updatedAt)).
  { intros result source w0 Hw0. rewrite upsertJobs_unfold. simpl.
    assert (Hm : w_jobs (set_jobs (db_markNotNew source (w_jobs w0)) w0) !! i
                 = Some (if decide (job_source j = source)
                         then set_isNewInLastHour false j else j)).
    { simpl. apply db_markNotNew_row. by rewrite Hw0. }
    destruct (upsertLoop_row_kept (sr_jobs result) _ 0%nat i _ Hm) as (b & ls & ua & Hj').
    exists b, ls, ua. rewrite Hj'. by case_decide. }
  assert (Hsame : ∃ isNew lastSeen updatedAt,
            Some j = Some (mkJob (job_id j) (job_title j) (job_company j) (job_location j)
                       (job_url j) (job_description j) (job_salary j) (job_jobType j)
                       (job_postedAt j) (job_roleSlug j) (job_source j) isNew
                       (job_firstSeen j) lastSeen (job_createdAt j) updatedAt)).
  { exists (job_isNewInLastHour j), (job_lastSeen j), (job_updatedAt j). by destruct j. }
  split; [intros; by apply Hups|].
  intros source.
  destruct (runScraperWorkflow_shape source keyword isManualTrigger w) as [_ Hshape].
  destruct Hshape as [[_ Hw']|[_ [(_ & _ & Hj & _)|
    [(msg & t & _ & _ & Hj & _)|(result & w3 & t & _ & Hj3 & _ & Hj & _)]]]].
  - rewrite Hw', checkSources_jobs, Hi. done.
  - rewrite Hj, Hi. done.
  - rewrite Hj, Hi. done.
  - rewrite Hj. by apply Hups.
Qed.

(** ** Ids and lookup by id *)

Lemma ids_updateSeen url nowIso js :
  job_id <$> db_updateSeen url nowIso js = job_id <$> js.
Proof.
  unfold db_updateSeen. rewrite <- list_fmap_compose.
  apply list_fmap_ext. intros _ j _. simpl. by case_decide.
Qed.

Lemma ids_markNotNew source js : job_id <$> db_markNotNew source js = job_id <$> js.
Proof.
  unfold db_markNotNew. rewrite <- list_fmap_compose.
  apply list_fmap_ext. intros _ j _. simpl. by case_decide.
Qed.

Lemma upsertJob_ids scrapedJob w n :
  NoDup (job_id <$> w_jobs w) → NoDup (job_id <$> w_jobs (upsertJob scrapedJob (w, n)).1).
Proof.
  intros Hnd. destruct (decide (sj_url scrapedJob ∈ urlsOf (w_jobs w))) as [Hin|Hnin].
  - rewrite upsertJob_found by done. simpl. by rewrite ids_updateSeen.
  - rewrite upsertJob_fresh by done. simpl. rewrite fmap_app. simpl.
    apply NoDup_app. split; [done|]. split; [|apply NoDup_singleton].
    intros id Hid Hid'. apply list_elem_of_singleton in Hid'. subst id.
    by apply (next_id_fresh (job_id <$> w_jobs w)).
Qed.

Lemma upsertLoop_ids records w n :
  NoDup (job_id <$> w_jobs w) → NoDup (job_id <$> w_jobs (upsertLoop records (w, n)).1).
Proof.
  revert w n. induction records as [|sj records IH]; intros w n Hnd; [done|].
  rewrite upsertLoop_cons. pose proof (upsertJob_ids sj w n Hnd) as Hnd'.
  destruct (upsertJob sj (w, n)) as [w' n']. by apply IH.
Qed.

Lemma filter_none {A} (P : A → Prop) `{∀ x, Decision (P x)} (l : list A) :
  (∀ x, x ∈ l → ¬ P x) → filter P l = [].
Proof.
  induction l as [|x l IH]; intros Hall; [done|].
  rewrite filter_cons_False by (apply Hall; left). apply IH. intros y Hy. apply Hall. by right.
Qed.

Lemma filter_by_id_unique (js : list Job) (j : Job) :
  NoDup (job_id <$> js) → j ∈ js →
  filter (λ j', job_id j' = job_id j) js = [j].
Proof.
  induction js as [|j0 js IH]; simpl.
  - intros _ Hin. by apply elem_of_nil in Hin.
  - rewrite NoDup_cons, elem_of_cons. intros [Hnin Hnd] Hin.
    rewrite filter_cons. case_decide as Hid.
    + assert (Hrest : filter (λ j', job_id j' = job_id j) js = []).
      { apply filter_none. intros j' Hj' Hid'.
        apply Hnin. rewrite Hid, <- Hid'. apply list_elem_of_fmap. by exists j'. }
      rewrite Hrest. destruct Hin as [->|Hin]; [done|].
      exfalso. apply Hnin. rewrite Hid. apply list_elem_of_fmap. by exists j.
    + destruct Hin as [->|Hin]; [done|]. by apply IH.
Qed.

(** X8. Ids stay unique through [upsertJobs], and on a table with unique
    ids [getJobById] is the inverse of storing: after any call of
    [upsertJobs] the id of each stored job finds exactly that job, and an id
    that no stored job has finds nothing. *)
Theorem getJobById_after_upsertJobs (result : ScraperResult) (source : string) (w : World) :
  NoDup (job_id <$> w_jobs w) →
  let w' := (upsertJobs result source w).2 in
  NoDup (job_id <$> w_jobs w') ∧
  (∀ j, j ∈ w_jobs w' → getJobById (job_id j) w' = Some j) ∧
  (∀ id, id ∉ job_id <$> w_jobs w' → getJobById id w' = None).
Proof.
  intros Hnd w'.
  assert (Hnd' : NoDup (job_id <$> w_jobs w')).
  { subst w'. rewrite upsertJobs_unfold. simpl. apply upsertLoop_ids. simpl.
    by rewrite ids_markNotNew. }
  split; [done|]. split.
  - intros j Hj. unfold getJobById. by rewrite (filter_by_id_unique _ _ Hnd' Hj).
  - intros id Hid. unfold getJobById.
    assert (Hnil : filter (λ j, job_id j = id) (w_jobs w') = []).
    { apply filter_none. intros j Hj Hid'. apply Hid.
      rewrite <- Hid'. apply list_elem_of_fmap. by exists j. }
    by rewrite Hnil.
Qed.

(** ** The jobs listed as new after a cycle *)

Lemma merge_sort_elem_of {A} (R : relation A) `{∀ x y, Decision (R x y)} (l : list A) x :
  x ∈ merge_sort R l ↔ x ∈ l.
Proof. by rewrite merge_sort_Permutation. Qed.

Lemma getJobsBySource_elem_of source w j :
  j ∈ getJobsBySource source w ↔
  j ∈ w_jobs w ∧ job_source j = source ∧ job_isNewInLastHour j = true.
Proof.
  unfold getJobsBySource. rewrite merge_sort_elem_of, list_elem_of_filter.
  split; [by intros [[? ?] ?]|by intros (? & ? & ?)].
Qed.

(** X9. Right after a cycle of [upsertJobs] for a source, every job that
    [getJobsBySource] lists for that source is a row the cycle added, for a
    record of that source: none of the jobs stored before the cycle is listed
    as new. *)
Theorem getJobsBySource_after_cycle (result : ScraperResult) (source : string)
    (w : World) (j : Job) :
  j ∈ getJobsBySource source (upsertJobs result source w).2 →
  ∃ i scrapedJob,
    (length (w_jobs w) ≤ i)%nat ∧
    w_jobs (upsertJobs result source w).2 !! i = Some j ∧
    scrapedJob ∈ sr_jobs result ∧
    sj_url scrapedJob = job_url j ∧ sj_source scrapedJob = source.
Proof.
  rewrite getJobsBySource_elem_of. intros (Hin & Hsrc & Hnew).
  apply list_elem_of_lookup in Hin as [i Hi].
  rewrite upsertJobs_unfold in Hi. simpl in Hi.
  destruct (decide (length (w_jobs w) ≤ i)%nat) as [Hge|Hlt].
  - destruct (upsertLoop_new_row (sr_jobs result)
                (set_jobs (db_markNotNew source (w_jobs w)) w) 0%nat i j)
      as (sj & Hsj & Hs & Hu); [|done|].
    { simpl. unfold db_markNotNew. by rewrite length_fmap. }
    exists i, sj. rewrite upsertJobs_unfold. simpl. repeat split; try done; congruence.
  - exfalso.
    assert (is_Some (w_jobs w !! i)) as [j0 Hj0] by (apply lookup_lt_is_Some; lia).
    pose proof (db_markNotNew_row source _ i j0 Hj0) as Hm.
    destruct (upsertLoop_row (sr_jobs result)
                (set_jobs (db_markNotNew source (w_jobs w)) w) 0%nat i _ Hm)
      as (j' & Hj' & _ & Hs & _ & _ & _ & Hold).
    rewrite Hi in Hj'. injection Hj' as <-.
    case_decide as Hj0s; simpl in *.
    + rewrite Hold in Hnew; done.
    + congruence.
Qed.

Lemma upsertLoop_app records1 records2 st :
  upsertLoop (records1 ++ records2) st = upsertLoop records2 (upsertLoop records1 st).
Proof. unfold upsertLoop. apply foldl_app. Qed.

Lemma upsertLoop_urls_from records w n u :
  u ∈ urlsOf (w_jobs (upsertLoop records (w, n)).1) →
  u ∈ urlsOf (w_jobs w) ∨ u ∈ sj_url <$> records.
Proof.
  revert w n. induction records as [|sj records IH]; intros w n Hu; [by left|].
  rewrite upsertLoop_cons in Hu.
  destruct (decide (sj_url sj ∈ urlsOf (w_jobs w))) as [Hin|Hnin].
  - rewrite upsertJob_found in Hu by done.
    apply IH in Hu as [Hu|Hu]; [|right; by right].
    simpl in Hu. rewrite urlsOf_updateSeen in Hu. by left.
  - rewrite upsertJob_fresh in Hu by done.
    apply IH in Hu as [Hu|Hu]; [|right; by right].
    simpl in Hu. unfold urlsOf in Hu. rewrite fmap_app in Hu.
    apply elem_of_app in Hu as [Hu|Hu]; [by left|].
    apply list_elem_of_singleton in Hu. right. rewrite Hu. left.
Qed.

(** X10. A record whose url is not stored yet, in a result that names no url
    twice, is stored by [upsertJobs] as a job that [getJobsBySource] lists
    for the source of the record, whatever the source of the cycle is: the
    job is new, carries the title, company, url and source of the record, and
    has firstSeen = lastSeen. *)
Theorem first_sighting_listed (result : ScraperResult) (source : string) (w : World)
    (scrapedJob : ScrapedJob) :
  NoDup (sj_url <$> sr_jobs result) →
  scrapedJob ∈ sr_jobs result →
  sj_url scrapedJob ∉ urlsOf (w_jobs w) →
  ∃ j, j ∈ getJobsBySource (sj_source scrapedJob) (upsertJobs result source w).2 ∧
       job_url j = sj_url scrapedJob ∧ job_title j = sj_title scrapedJob ∧
       job_company j = sj_company scrapedJob ∧
       job_isNewInLastHour j = true ∧ job_firstSeen j = job_lastSeen j.
Proof.
  intros Hnd Hin Hnew.
  apply list_elem_of_split in Hin as (pre & post & Hsplit).
  rewrite Hsplit, fmap_app, fmap_cons in Hnd.
  apply NoDup_app in Hnd as (_ & Hpre & Hpost).
  apply NoDup_cons in Hpost as [Hpost _].
  rewrite upsertJobs_unfold. simpl. rewrite Hsplit, upsertLoop_app, upsertLoop_cons.
  set (w0 := set_jobs (db_markNotNew source (w_jobs w)) w).
  assert (Hfresh : sj_url scrapedJob ∉ urlsOf (w_jobs (upsertLoop pre (w0, 0%nat)).1)).
  { intros Hu. apply upsertLoop_urls_from in Hu as [Hu|Hu].
    - simpl in Hu. rewrite urlsOf_markNotNew in Hu. done.
    - apply (Hpre _ Hu). left. }
  destruct (upsertLoop pre (w0, 0%nat)) as [w1 n1]. simpl in Hfresh.
  rewrite upsertJob_fresh by done.
  set (row := newJobRow (next_id (job_id <$> w_jobs w1)) scrapedJob (clock (w_ticks w1))).
  destruct (upsertLoop_row post (set_jobs (w_jobs w1 ++ [row]) (tick w1)) (S n1)
              (length (w_jobs w1)) row) as (j' & Hj' & _ & _ & _ & Hkeep & _).
  { simpl. rewrite lookup_app_r by done. by rewrite Nat.sub_diag. }
  rewrite (Hkeep Hpost) in Hj'.
  exists row. split; [|done].
  apply getJobsBySource_elem_of. split; [|done].
  by eapply list_elem_of_lookup_2.
Qed.

(** ** The times of a stored job *)

Lemma seenInOrder_upsertJob scrapedJob w n :
  (∀ a b, (a ≤ b)%nat → clock a ≤ clock b) →
  seenInOrder w → seenInOrder (upsertJob scrapedJob (w, n)).1.
Proof.
  intros Hmono Hinv. unfold seenInOrder in *.
  assert (Hnext : clock (w_ticks w) ≤ clock (S (w_ticks w))) by (apply Hmono; lia).
  assert (Hold : Forall (λ j, job_firstSeen j ≤ job_lastSeen j ∧
                              job_lastSeen j ≤ clock (S (w_ticks w)) ∧
                              job_createdAt j ≤ job_updatedAt j ∧
                              job_updatedAt j ≤ clock (S (w_ticks w))) (w_jobs w)).
  { eapply Forall_impl; [exact Hinv|]. simpl. intros j ?. lia. }
  destruct (decide (sj_url scrapedJob ∈ urlsOf (w_jobs w))) as [Hin|Hnin].
  - rewrite upsertJob_found by done. simpl. unfold db_updateSeen.
    apply Forall_fmap. rewrite Forall_forall in Hinv, Hold |- *.
    intros j Hj. specialize (Hinv j Hj). specialize (Hold j Hj).
    simpl. case_decide; simpl; lia.
  - rewrite upsertJob_fresh by done. simpl. apply Forall_app. split; [done|].
    constructor; [simpl; lia|constructor].
Qed.

Lemma seenInOrder_upsertLoop records w n :
  (∀ a b, (a ≤ b)%nat → clock a ≤ clock b) →
  seenInOrder w → seenInOrder (upsertLoop records (w, n)).1.
Proof.
  intros Hmono. revert w n. induction records as [|sj records IH]; intros w n Hinv; [done|].
  rewrite upsertLoop_cons. pose proof (seenInOrder_upsertJob sj w n Hmono Hinv) as Hinv'.
  destruct (upsertJob sj (w, n)) as [w1 n1]. by apply IH.
Qed.

(** X11. With a clock that never runs backwards, [upsertJobs] keeps the
    times of the stored jobs in order: when every job had firstSeen no later
    than lastSeen and createdAt no later than updatedAt, none of them ahead of
    the clock, the same holds after the call, for the jobs it touched and
    for the jobs it added. *)
Theorem upsertJobs_keeps_times_in_order (result : ScraperResult) (source : string)
    (w : World) :
  (∀ a b, (a ≤ b)%nat → clock a ≤ clock b) →
  seenInOrder w →
  seenInOrder (upsertJobs result source w).2.
Proof.
  intros Hmono Hinv. rewrite upsertJobs_unfold. simpl.
  apply seenInOrder_upsertLoop; [done|].
  unfold seenInOrder in *. simpl. unfold db_markNotNew. apply Forall_fmap.
  eapply Forall_impl; [exact Hinv|]. intros j Hj. simpl. by case_decide.
Qed.

(** ** The row of a completed run *)

Lemma runScraperWorkflow_completed_row source keyword isManualTrigger w wr :
  (runScraperWorkflow source keyword isManualTrigger w).1 = Resolved wr →
  wr_success wr = true →
  ∃ startedAt completedAt stats k0 k1,
    startedAt = clock k0 ∧ completedAt = clock k1 ∧ (k0 ≤ k1)%nat ∧
    (stats.2 ≤ stats.1)%nat ∧
    wr = mkWorkflowResult true "Scraper completed successfully" (Some stats) ∧
    w_runs (runScraperWorkflow source keyword isManualTrigger w).2
      = w_runs w ++ [mkRun (next_id (run_id <$> w_runs w)) (source_name source) completed
                           stats.1 stats.2 startedAt (Some completedAt) None].
Proof.
  unfold runScraperWorkflow.
  pose proof (checkSources_frame (sourcesOf source) w) as Hf.
  destruct (checkSources (sourcesOf source) w) as [[[src m]|] w1]; simpl in Hf |- *.
  { intros [= <-]. done. }
  assert (Hruns : w_runs w1 = w_runs w) by (by rewrite Hf).
  set (r0 := newRunRecord (w_runs w1) (source_name source) (clock (w_ticks w1))).
  pose proof (runPythonScraper_frame keyword source (db_insertRun r0 (tick w1)))
    as (Hr & _ & _ & Ht & _).
  destruct (runPythonScraper keyword source (db_insertRun r0 (tick w1)))
    as [[result|msg|] w3]; simpl in Hr, Ht; [| |done].
  - pose proof (upsertJobs_frame result (source_name source) w3) as (Hr' & _ & _ & _ & Ht').
    assert (Hle : ((upsertJobs result (source_name source) w3).1.2
                   ≤ (upsertJobs result (source_name source) w3).1.1)%nat).
    { rewrite upsertJobs_unfold. simpl.
      apply (upsertLoop_count_le (sr_jobs result)
               (set_jobs (db_markNotNew (source_name source) (w_jobs w3)) w3) 0%nat). }
    destruct (upsertJobs result (source_name source) w3) as [stats w4].
    simpl in Hr', Ht', Hle.
    intros [= <-] _.
    exists (clock (w_ticks w1)), (clock (w_ticks w4)), stats, (w_ticks w1), (w_ticks w4).
    split; [done|]. split; [done|]. split; [lia|]. split; [done|].
    split; [done|].
    assert (Hupd : w_runs w4 = w_runs w1 ++ [r0]) by (by rewrite Hr', Hr).
    destruct isManualTrigger; simpl; rewrite Hupd;
      (transitivity (w_runs w1 ++ [set_completed (clock (w_ticks w4)) stats.1 stats.2 r0]);
       [by apply (update_inserted_run
                    (set_completed (clock (w_ticks w4)) stats.1 stats.2) (w_runs w1) r0)|
        subst r0; unfold newRunRecord, set_completed; simpl; by rewrite Hruns]).
  - intros [= <-]. done.
Qed.

(** X12. The result and the ledger row of a completed run agree: the stats
    returned by [runScraperWorkflow] are the jobsFound and newJobs written to
    the row it closes, with newJobs no larger than jobsFound; the row carries
    the source the call was given, status completed and no error; and with a
    clock that never runs backwards its startedAt is no later than its
    completedAt. *)
Theorem completed_run_row (source : SourceSel) (keyword : string)
    (isManualTrigger : bool) (w : World) (wr : WorkflowResult) :
  (runScraperWorkflow source keyword isManualTrigger w).1 = Resolved wr →
  wr_success wr = true →
  ∃ r1 jobsFound newJobs completedAt,
    w_runs (runScraperWorkflow source keyword isManualTrigger w).2 = w_runs w ++ [r1] ∧
    wr_stats wr = Some (jobsFound, newJobs) ∧
    run_jobsFound r1 = jobsFound ∧ run_newJobs r1 = newJobs ∧ (newJobs ≤ jobsFound)%nat ∧
    run_source r1 = source_name source ∧ run_status r1 = completed ∧
    run_error r1 = None ∧ run_completedAt r1 = Some completedAt ∧
    ((∀ a b, (a ≤ b)%nat → clock a ≤ clock b) → run_startedAt r1 ≤ completedAt).
Proof.
  intros Hres Hsucc.
  destruct (runScraperWorkflow_completed_row _ _ _ _ _ Hres Hsucc)
    as (sa & ca & stats & k0 & k1 & -> & -> & Hk & Hle & -> & Hruns).
  eexists _, stats.1, stats.2, (clock k1). split; [exact Hruns|]. simpl.
  split; [by destruct stats|]. repeat split; try done.
  intros Hmono. by apply Hmono.
Qed.

Lemma canRunScraper_at_mostRecent source w t :
  mostRecentCompletion source (w_runs w) t →
  (canRunScraper source w).1
    = if Qle_bool (inject_Z (MIN_INTERVAL_HOURS * 60)) (minutesBetween (clock (w_ticks w)) t)
      then (true, 0)
      else (false, Qceiling (inject_Z (MIN_INTERVAL_HOURS * 60)
                             - minutesBetween (clock (w_ticks w)) t)).
Proof.
  intros Ht. destruct (lastCompletedRun_mostRecent _ _ _ Ht) as (r0 & Hr0 & Ht0).
  unfold canRunScraper. rewrite Hr0, Ht0. by destruct (Qle_bool _ _).
Qed.

(** X13. A completed run starts the cooldown of the source it was called
    for.  When no stored completed run of that source has a later completion
    time than the run just closed, [canRunScraper] for that source, at any
    later clock reading, refuses while fewer than MIN_INTERVAL_HOURS * 60
    minutes have passed since the run was closed, with the minutes left
    rounded up, and allows from then on. *)
Theorem completed_run_starts_cooldown (source : SourceSel) (keyword : string)
    (isManualTrigger : bool) (w : World) (wr : WorkflowResult) :
  (runScraperWorkflow source keyword isManualTrigger w).1 = Resolved wr →
  wr_success wr = true →
  ∃ r1 completedAt,
    w_runs (runScraperWorkflow source keyword isManualTrigger w).2 = w_runs w ++ [r1] ∧
    run_completedAt r1 = Some completedAt ∧
    (Forall (λ r, nulls_first_le (run_completedAt r) (Some completedAt))
            (completedRunsOf (source_name source) (w_runs w)) →
     ∀ k,
       let elapsed := minutesBetween (clock k) completedAt in
       let required := inject_Z (MIN_INTERVAL_HOURS * 60) in
       ((required <= elapsed)%Q →
        (canRunScraper (source_name source)
           (set_ticks k (runScraperWorkflow source keyword isManualTrigger w).2)).1
          = (true, 0)) ∧
       (¬ (required <= elapsed)%Q →
        (canRunScraper (source_name source)
           (set_ticks k (runScraperWorkflow source keyword isManualTrigger w).2)).1
          = (false, Qceiling (required - elapsed)))).
Proof.
  intros Hres Hsucc.
  destruct (runScraperWorkflow_completed_row _ _ _ _ _ Hres Hsucc)
    as (sa & ca & stats & k0 & k1 & -> & -> & Hk & Hle & -> & Hruns).
  eexists _, (clock k1). split; [exact Hruns|]. split; [done|].
  intros Hold k elapsed required.
  set (w' := (runScraperWorkflow source keyword isManualTrigger w).2) in *.
  assert (Hmost : mostRecentCompletion (source_name source) (w_runs (set_ticks k w'))
                    (clock k1)).
  { unfold mostRecentCompletion. simpl. rewrite Hruns, completedRunsOf_app.
    assert (Hlast : completedRunsOf (source_name source)
              [mkRun (next_id (run_id <$> w_runs w)) (source_name source) completed
                     stats.1 stats.2 (clock k0) (Some (clock k1)) None]
            = [mkRun (next_id (run_id <$> w_runs w)) (source_name source) completed
                     stats.1 stats.2 (clock k0) (Some (clock k1)) None]).
    { unfold completedRunsOf. by rewrite filter_cons_True. }
    rewrite Hlast. split.
    - apply Exists_app. right. by constructor.
    - apply Forall_app. split; [done|]. constructor; [simpl; lia|constructor]. }
  rewrite (canRunScraper_at_mostRecent _ _ _ Hmost). simpl. fold elapsed required.
  split.
  - intros He. apply Qle_bool_iff in He. by rewrite He.
  - intros He. destruct (Qle_bool required elapsed) eqn:Hb; [|done].
    apply Qle_bool_iff in Hb. done.
Qed.

(** ** The queries of the jobs service *)

Global Instance createdAt_desc_total : Total createdAt_desc.
Proof. intros j1 j2. unfold createdAt_desc. lia. Qed.

Global Instance createdAt_desc_trans : Transitive createdAt_desc.
Proof. intros j1 j2 j3. unfold createdAt_desc. lia. Qed.

Global Instance startedAt_desc_total : Total startedAt_desc.
Proof. intros r1 r2. unfold startedAt_desc. lia. Qed.

Global Instance startedAt_desc_trans : Transitive startedAt_desc.
Proof. intros r1 r2 r3. unfold startedAt_desc. lia. Qed.

Global Instance firstSeen_desc_total : Total firstSeen_desc.
Proof. intros j1 j2. unfold firstSeen_desc. lia. Qed.

Global Instance firstSeen_desc_trans : Transitive firstSeen_desc.
Proof. intros j1 j2 j3. unfold firstSeen_desc. lia. Qed.

(** ORDER BY ... LIMIT n returns a front part of the sorted selection. *)
Lemma sql_limit_sorted {A} (R : relation A) `{∀ x y, Decision (R x y)}
    `{!Transitive R} `{!Total R} (n : Z) (l : list A) :
  ∃ rest,
    sql_limit n (merge_sort R l) ++ rest ≡ₚ l ∧
    StronglySorted R (sql_limit n (merge_sort R l) ++ rest) ∧
    (0 ≤ n → length (sql_limit n (merge_sort R l)) = (Z.to_nat n `min` length l)%nat) ∧
    (n < 0 → rest = []).
Proof.
  unfold sql_limit. case_decide as Hn.
  - exists []. rewrite app_nil_r. split; [apply merge_sort_Permutation|].
    split; [by apply StronglySorted_merge_sort|]. split; [lia|done].
  - exists (drop (Z.to_nat n) (merge_sort R l)). rewrite take_drop.
    split; [apply merge_sort_Permutation|].
    split; [by apply StronglySorted_merge_sort|]. split; [|lia].
    intros _. rewrite length_take. by rewrite (Permutation_length (merge_sort_Permutation R l)).
Qed.

(** X14. [getAllJobs] returns the latest jobs that pass its filters: its
    result, followed by the matching jobs it leaves out, is the whole
    selection in descending order of createdAt, so no job left out is more
    recent than a job returned; it returns min(limit, matches) jobs, all of
    them for a negative limit, with limit 1000 when none is given.  A filter
    is applied only for a non-empty source, a non-empty roleSlug and
    isNew = true: isNew = false selects the same jobs as no isNew at all. *)
Theorem getAllJobs_latest_matching (params : JobParams) (w : World) :
  let limit := default 1000 (gp_limit params) in
  (∃ rest,
     getAllJobs params w ++ rest ≡ₚ filter (jobConditions params) (w_jobs w) ∧
     StronglySorted createdAt_desc (getAllJobs params w ++ rest) ∧
     (0 ≤ limit →
      length (getAllJobs params w)
        = (Z.to_nat limit `min` length (filter (jobConditions params) (w_jobs w)))%nat) ∧
     (limit < 0 → rest = [])) ∧
  (∀ j, jobConditions params j ↔
        (∀ source, gp_source params = Some source → source ≠ "" → job_source j = source) ∧
        (∀ roleSlug, gp_roleSlug params = Some roleSlug → roleSlug ≠ "" →
                     job_roleSlug j = Some roleSlug) ∧
        (gp_isNew params = Some true → job_isNewInLastHour j = true)) ∧
  getAllJobs (mkParams (gp_source params) (gp_roleSlug params) (Some false) (gp_limit params)) w
    = getAllJobs (mkParams (gp_source params) (gp_roleSlug params) None (gp_limit params)) w.
Proof.
  intros limit. split; [|split].
  - apply (sql_limit_sorted createdAt_desc limit (filter (jobConditions params) (w_jobs w))).
  - intros j. unfold jobConditions, or_null.
    destruct (gp_source params) as [src|], (gp_roleSlug params) as [slug|],
      (gp_isNew params) as [[|]|]; repeat case_decide; subst;
      (split; [intros (H1 & H2 & H3); repeat split; intros; simplify_eq; done
              |intros (H1 & H2 & H3); repeat split; eauto]).
  - reflexivity.
Qed.

(** X15. [getRecentScraperRuns] returns the latest runs: its result,
    followed by the runs it leaves out, is the selection in descending order
    of startedAt, where the selection is every row of a non-empty source, or
    every row of the table without one, whatever the status; it returns
    min(limit, rows) runs, with limit 10 when none is given. *)
Theorem getRecentScraperRuns_latest (source : option string) (limit : option Z) (w : World) :
  let selection :=
    match source with
    | Some s => if decide (s = "") then w_runs w else filter (λ r, run_source r = s) (w_runs w)
    | None => w_runs w
    end in
  ∃ rest,
    getRecentScraperRuns source limit w ++ rest ≡ₚ selection ∧
    StronglySorted startedAt_desc (getRecentScraperRuns source limit w ++ rest) ∧
    (0 ≤ default 10 limit →
     length (getRecentScraperRuns source limit w)
       = (Z.to_nat (default 10%Z limit) `min` length selection)%nat) ∧
    (default 10 limit < 0 → rest = []).
Proof.
  intros selection. unfold getRecentScraperRuns.
  assert (Hsel : match or_null source with
                 | Some s => filter (λ r, run_source r = s) (w_runs w)
                 | None => w_runs w
                 end = selection).
  { subst selection. unfold or_null. destruct source as [s|]; [|done]. by case_decide. }
  rewrite Hsel. apply (sql_limit_sorted startedAt_desc (default 10 limit) selection).
Qed.

(** ** The statistics *)

Lemma foldl_insert_union (l : list (string * nat)) (m0 : gmap string nat) :
  foldl (λ (m : gmap string nat) row, <[row.1 := row.2]> m) m0 l
    = list_to_map (reverse l) ∪ m0.
Proof.
  revert m0. induction l as [|[k v] l IH]; intros m0; simpl.
  - by rewrite (left_id_L ∅ (∪)).
  - rewrite IH, reverse_cons, list_to_map_app, insert_union_singleton_l. simpl.
    rewrite insert_empty. by rewrite (assoc_L (∪)).
Qed.

Lemma sourceStats_keys js : (sourceStats js).*1 = remove_dups (job_source <$> js).
Proof.
  unfold sourceStats. rewrite <- list_fmap_compose.
  rewrite <- (list_fmap_id (remove_dups (job_source <$> js))) at 2.
  by apply list_fmap_ext.
Qed.

Lemma sum_list_fmap_with {A} (f : A → nat) (l : list A) :
  sum_list (f <$> l) = sum_list_with f l.
Proof. induction l as [|x l IH]; [done|]. csimpl. by rewrite IH. Qed.

Lemma sum_indicator (x : string) (sources : list string) :
  NoDup sources → x ∈ sources →
  sum_list_with (λ s, if decide (x = s) then 1 else 0)%nat sources = 1%nat.
Proof.
  induction sources as [|s sources IH]; simpl.
  - intros _ Hx. by apply elem_of_nil in Hx.
  - rewrite NoDup_cons, elem_of_cons. intros [Hnin Hnd] Hx.
    case_decide as Hs.
    + subst s. f_equal. clear IH Hx. induction sources as [|s' sources IH]; [done|].
      simpl. apply not_elem_of_cons in Hnin as [Hne Hnin].
      rewrite decide_False by done. apply IH; [done|]. by apply NoDup_cons in Hnd as [_ ?].
    + destruct Hx as [->|Hx]; [done|]. by apply IH.
Qed.

Lemma sum_countSource (sources : list string) (js : list Job) :
  NoDup sources → (∀ j, j ∈ js → job_source j ∈ sources) →
  sum_list_with (λ s, countSource s js) sources = length js.
Proof.
  intros Hnd. induction js as [|j js IH]; intros Hall.
  - unfold countSource. simpl. clear Hnd Hall. induction sources; simpl; [done|]. by rewrite IHsources.
  - assert (Hstep : ∀ l, sum_list_with (λ s, countSource s (j :: js)) l
                     = (sum_list_with (λ s, if decide (job_source j = s) then 1 else 0) l
                        + sum_list_with (λ s, countSource s js) l)%nat).
    { induction l as [|s l IHl]; [done|]. simpl. rewrite IHl.
      unfold countSource at 1. rewrite filter_cons. case_decide; simpl; unfold countSource; lia. }
    rewrite Hstep, IH by (intros j' Hj'; apply Hall; by right).
    rewrite sum_indicator; [done|done|]. apply Hall. left.
Qed.

(** X16. The statistics of [getJobStats] are consistent: totalJobs is the
    number of stored jobs and newJobsLastHour, the number of those flagged
    new, is never larger; jobsBySource has an entry exactly for the sources
    that occur in the table, each the positive number of jobs of that source;
    and the entries add up to totalJobs.  The call reads the clock once and
    writes nothing. *)
Theorem getJobStats_consistent (w : World) :
  let stats := (getJobStats w).1 in
  js_totalJobs stats = length (w_jobs w) ∧
  js_newJobsLastHour stats = length (filter (λ j, job_isNewInLastHour j = true) (w_jobs w)) ∧
  (js_newJobsLastHour stats ≤ js_totalJobs stats)%nat ∧
  (∀ source,
     js_jobsBySource stats !! source
       = if decide (source ∈ job_source <$> w_jobs w)
         then Some (countSource source (w_jobs w)) else None) ∧
  (∀ source n, js_jobsBySource stats !! source = Some n → (0 < n)%nat) ∧
  sum_list ((map_to_list (js_jobsBySource stats)).*2) = js_totalJobs stats ∧
  (getJobStats w).2 = tick w.
Proof.
  intros stats. subst stats. unfold getJobStats. simpl.
  split; [done|]. split; [done|]. split; [apply length_filter|].
  rewrite foldl_insert_union, (right_id_L ∅ (∪)).
  assert (Hnd : NoDup (reverse (sourceStats (w_jobs w))).*1).
  { rewrite fmap_reverse, sourceStats_keys, reverse_Permutation. apply NoDup_remove_dups. }
  assert (Hlook : ∀ source,
            (list_to_map (reverse (sourceStats (w_jobs w))) : gmap string nat) !! source
            = if decide (source ∈ job_source <$> w_jobs w)
              then Some (countSource source (w_jobs w)) else None).
  { intros source. case_decide as Hin.
    - apply elem_of_list_to_map; [done|]. apply elem_of_reverse. unfold sourceStats.
      apply list_elem_of_fmap. exists source. split; [done|]. by apply elem_of_remove_dups.
    - apply not_elem_of_list_to_map. rewrite fmap_reverse, elem_of_reverse, sourceStats_keys.
      by rewrite elem_of_remove_dups. }
  split; [done|]. split; [|split; [|done]].
  - intros source n. rewrite Hlook. case_decide as Hin; [|done]. intros [= <-].
    apply list_elem_of_fmap in Hin as (j & -> & Hj). unfold countSource.
    assert (Hjf : j ∈ filter (λ j', job_source j' = job_source j) (w_jobs w))
      by (by apply list_elem_of_filter).
    destruct (filter _ (w_jobs w)); [by apply elem_of_nil in Hjf|simpl; lia].
  - rewrite (map_to_list_to_map _ Hnd), fmap_reverse, sum_list_with_reverse.
    unfold sourceStats. rewrite <- list_fmap_compose, sum_list_fmap_with.
    apply (sum_countSource (remove_dups (job_source <$> w_jobs w)));
      [apply NoDup_remove_dups|].
    intros j Hj. apply elem_of_remove_dups, list_elem_of_fmap. by exists j.
Qed.

(** ** The status report and the cooldown *)

Lemma Qle_required_60 e :
  1 ≤ MIN_INTERVAL_HOURS → (inject_Z (MIN_INTERVAL_HOURS * 60) <= e)%Q → (inject_Z 60 <= e)%Q.
Proof.
  intros Hh He. eapply Qle_trans; [|exact He]. rewrite <- Zle_Qle. lia.
Qed.

(** X17. [getScraperStatus] reports on linkedin and stepstone and on nothing
    else, each from the row [canRunScraper] would use, but against a fixed 60
    minutes.  With MIN_INTERVAL_HOURS of at least 1, a source that
    [canRunScraper] allows is reported as able to run; the converse fails:
    from 60 minutes after the last completion until MIN_INTERVAL_HOURS * 60
    minutes after it, the report says canRun = true with 0 minutes to wait
    while [canRunScraper] refuses.  Before the 60 minutes the report says
    canRun = false with the minutes left to 60, rounded up. *)
Theorem getScraperStatus_against_the_cooldown (w : World) (source : string) :
  ((getScraperStatus w).1 !! "linkedin" = Some (statusOf "linkedin" w).1 ∧
   (getScraperStatus w).1 !! "stepstone"
     = Some (statusOf "stepstone" (statusOf "linkedin" w).2).1 ∧
   (∀ key, key ≠ "linkedin" → key ≠ "stepstone" → (getScraperStatus w).1 !! key = None) ∧
   w_runs (getScraperStatus w).2 = w_runs w ∧ w_jobs (getScraperStatus w).2 = w_jobs w) ∧
  st_lastRun (statusOf source w).1 = head (lastCompletedRun source (w_runs w)) ∧
  (1 ≤ MIN_INTERVAL_HOURS → (canRunScraper source w).1.1 = true →
   st_canRun (statusOf source w).1 = true ∧ st_minutesUntilNextRun (statusOf source w).1 = 0) ∧
  (∀ t, mostRecentCompletion source (w_runs w) t →
     let elapsed := minutesBetween (clock (w_ticks w)) t in
     ((inject_Z 60 <= elapsed)%Q → ¬ (inject_Z (MIN_INTERVAL_HOURS * 60) <= elapsed)%Q →
      st_canRun (statusOf source w).1 = true ∧
      st_minutesUntilNextRun (statusOf source w).1 = 0 ∧
      (canRunScraper source w).1
        = (false, Qceiling (inject_Z (MIN_INTERVAL_HOURS * 60) - elapsed))) ∧
     (¬ (inject_Z 60 <= elapsed)%Q →
      st_canRun (statusOf source w).1 = false ∧
      st_minutesUntilNextRun (statusOf source w).1 = Qceiling (inject_Z 60 - elapsed))).
Proof.
  split; [|split; [|split]].
  - unfold getScraperStatus. simpl.
    assert (Hfr : ∀ s w0, w_runs (statusOf s w0).2 = w_runs w0
                          ∧ w_jobs (statusOf s w0).2 = w_jobs w0).
    { intros s w0. unfold statusOf. destruct (_ ≫= run_completedAt); [|done].
      by destruct (negb _). }
    destruct (Hfr "linkedin" w) as [Hr1 Hj1].
    destruct (statusOf "linkedin" w) as [st1 w1]. simpl in *.
    destruct (Hfr "stepstone" w1) as [Hr2 Hj2].
    destruct (statusOf "stepstone" w1) as [st2 w2]. simpl in *.
    split; [by rewrite lookup_insert_ne, lookup_insert_eq|].
    split; [by rewrite lookup_insert_eq|]. split; [|split; congruence].
    intros key H1 H2. by rewrite !lookup_insert_ne, lookup_empty.
  - unfold statusOf. destruct (_ ≫= run_completedAt); [|done]. by destruct (negb _).
  - intros Hh. unfold canRunScraper, statusOf.
    destruct (lastCompletedRun source (w_runs w)) as [|r ?]; [done|]. simpl.
    destruct (run_completedAt r) as [t|]; [|done]. simpl.
    destruct (Qle_bool (inject_Z (MIN_INTERVAL_HOURS * 60)) _) eqn:Hb; [|done].
    intros _. apply Qle_bool_iff in Hb. apply (Qle_required_60 _ Hh) in Hb.
    apply Qle_bool_iff in Hb. by rewrite Hb.
  - intros t Ht elapsed.
    pose proof (canRunScraper_at_mostRecent source w t Ht) as Hgate. fold elapsed in Hgate.
    destruct (lastCompletedRun_mostRecent _ _ _ Ht) as (r0 & Hr0 & Ht0).
    unfold statusOf. rewrite Hr0. simpl. rewrite Ht0. simpl. fold elapsed.
    split.
    + intros H60 Hreq. apply Qle_bool_iff in H60. rewrite H60. simpl.
      split; [done|]. split; [done|].
      rewrite Hgate. destruct (Qle_bool _ elapsed) eqn:Hb; [|done].
      apply Qle_bool_iff in Hb. done.
    + intros H60. destruct (Qle_bool (inject_Z 60) elapsed) eqn:Hb; [|done].
      apply Qle_bool_iff in Hb. done.
Qed.

(** ** POST /scrape *)

Lemma beforeComma_prefix value :
  (value = beforeComma value ∨ ∃ rest, value = beforeComma value +:+ "," +:+ rest) ∧
  (∀ front back, beforeComma value ≠ front +:+ "," +:+ back).
Proof.
  induction value as [|c value [IH1 IH2]]; simpl.
  - split; [by left|]. intros [|? ?] ? H; discriminate H.
  - destruct (Ascii.eqb c ",") eqn:Hc.
    + apply Ascii.eqb_eq in Hc. subst c. split; [right; by exists value|].
      intros [|? ?] ? H; discriminate H.
    + split.
      * destruct IH1 as [IH1|[rest IH1]]; [left; by f_equal|right].
        exists rest. rewrite IH1 at 1. reflexivity.
      * intros [|c' front] back H.
        -- change (String c (beforeComma value) = String "," back) in H.
           injection H as -> _. by rewrite Ascii.eqb_refl in Hc.
        -- change (String c (beforeComma value) = String c' (front +:+ "," +:+ back)) in H.
           injection H as _ H. by apply (IH2 front back).
Qed.

(** X18. The answers of POST /scrape.  A source other than linkedin,
    stepstone and all, or none, is answered 400 and nothing happens.  When the
    check of some source refuses, the answer is 429 with the minutes and the
    very message the workflow would give, no workflow is started, and the
    world changes in its count of clock readings only.  Otherwise the answer
    is 200 for the source, with the keyword of the request if it has a
    non-empty one, else the text before the first comma of the value stored
    under the key keywords, trimmed, else the default embedded systems
    engineer. *)
Theorem postScrape_answers (settingsT : list Setting) (source keyword : option string)
    (w : World) :
  let response := (postScrape settingsT source keyword w).1 in
  let w' := (postScrape settingsT source keyword w).2 in
  (response = InvalidSource ↔
   source ≠ Some "linkedin" ∧ source ≠ Some "stepstone" ∧ source ≠ Some "all") ∧
  (response = InvalidSource → w' = w) ∧
  (∀ error minutesUntilNext, response = MustWait error minutesUntilNext →
     ∃ src blocked,
       source = Some (source_name src) ∧
       (checkSources (sourcesOf src) w).1 = Some (blocked, minutesUntilNext) ∧
       error = wr_message (mustWait minutesUntilNext blocked) ∧
       startedWorkflow response w' = None ∧
       w' = set_ticks (w_ticks w') w) ∧
  (∀ src searchKeyword, response = ScraperStarted src searchKeyword →
     source = Some (source_name src) ∧
     (checkSources (sourcesOf src) w).1 = None ∧
     w' = set_ticks (w_ticks w') w ∧
     searchKeyword
       = match keyword with
         | Some k => if decide (k = "") then settingKeyword settingsT else k
         | None => settingKeyword settingsT
         end ∧
     startedWorkflow response w' = Some (runScraperWorkflow src searchKeyword false w')) ∧
  (∀ value, settingsT !! 0%nat = Some (mkSetting "keywords" value) →
     settingKeyword settingsT = String_trim (beforeComma value)) ∧
  ((∀ st, st ∈ settingsT → setting_key st ≠ "keywords") →
   settingKeyword settingsT = "embedded systems engineer").
Proof.
  intros response w'. subst response w'. unfold postScrape.
  assert (Hparse : ∀ s src, parseSource s = Some src → s = source_name src).
  { intros s src. unfold parseSource. repeat case_decide; intros [= <-]; by subst. }
  assert (Hkw : match or_null keyword with
                | Some k => k
                | None => settingKeyword settingsT
                end
                = match keyword with
                  | Some k => if decide (k = "") then settingKeyword settingsT else k
                  | None => settingKeyword settingsT
                  end).
  { unfold or_null. destruct keyword as [k|]; [|done]. by case_decide. }
  destruct (source ≫= parseSource) as [src|] eqn:Hsrc.
  - assert (Hsource : source = Some (source_name src)).
    { destruct source as [s|]; [|done]. simpl in Hsrc. by rewrite (Hparse _ _ Hsrc). }
    pose proof (checkSources_frame (sourcesOf src) w) as Hf.
    destruct (checkSources (sourcesOf src) w) as [[[blocked m]|] w1] eqn:Hgate; simpl in *.
    + split; [split; [done|]|].
      { intros (H1 & H2 & H3). subst source. by destruct src. }
      split; [done|]. split; [|split; [done|]].
      * intros error m' [= <- <-]. exists src, blocked. by rewrite Hgate.
      * split.
        -- intros value H0. unfold settingKeyword.
           destruct settingsT as [|st rest]; [done|]. simpl in H0. injection H0 as ->.
           by rewrite filter_cons_True.
        -- intros Hno. unfold settingKeyword. by rewrite filter_none.
    + split; [split; [done|]|].
      { intros (H1 & H2 & H3). subst source. by destruct src. }
      split; [done|]. split; [done|]. split.
      * intros src' kw' [= <- <-]. by rewrite Hkw, Hgate.
      * split.
        -- intros value H0. unfold settingKeyword.
           destruct settingsT as [|st rest]; [done|]. simpl in H0. injection H0 as ->.
           by rewrite filter_cons_True.
        -- intros Hno. unfold settingKeyword. by rewrite filter_none.
  - simpl. split; [split; [intros _|done]|].
    { destruct source as [s|]; [|done]. simpl in Hsrc. unfold parseSource in Hsrc.
      repeat case_decide; try done. repeat split; congruence. }
    split; [done|]. split; [done|]. split; [done|]. split.
    + intros value H0. unfold settingKeyword.
      destruct settingsT as [|st rest]; [done|]. simpl in H0. injection H0 as ->.
      by rewrite filter_cons_True.
    + intros Hno. unfold settingKeyword. by rewrite filter_none.
Qed.

(** X19. The part of a settings value used as the keyword is the text before
    its first comma: it contains no comma, and the value is that text alone
    or that text, a comma and a rest. *)
Theorem beforeComma_first_entry (value : string) :
  (value = beforeComma value ∨ ∃ rest, value = beforeComma value +:+ "," +:+ rest) ∧
  (∀ front back, beforeComma value ≠ front +:+ "," +:+ back) ∧
  beforeComma (beforeComma value) = beforeComma value.
Proof.
  destruct (beforeComma_prefix value) as [H1 H2]. split; [done|]. split; [done|].
  destruct (beforeComma_prefix (beforeComma value)) as [[H3|[rest H3]] _]; [done|].
  exfalso. by apply (H2 _ _ H3).
Qed.

(** X20. A run started by POST /scrape never sets a timer: the route starts
    the workflow as an automatic run, so whatever the run does, the timers
    after it are the timers before the request. *)
Theorem postScrape_sets_no_timer (settingsT : list Setting) (source keyword : option string)
    (w : World) (out : Promise WorkflowResult * World) :
  startedWorkflow (postScrape settingsT source keyword w).1
                  (postScrape settingsT source keyword w).2 = Some out →
  w_activeSchedules out.2 = w_activeSchedules w.
Proof.
  unfold postScrape. destruct (source ≫= parseSource) as [src|]; [|done].
  pose proof (checkSources_schedules (sourcesOf src) w) as Hs.
  destruct (checkSources (sourcesOf src) w) as [[[blocked m]|] w1]; simpl in *; [done|].
  intros [= <-].
  by rewrite runScraperWorkflow_automatic_schedules.
Qed.

Lemma checkSources_pass_later sources w0 w :
  (∀ a b, (a ≤ b)%nat → clock a ≤ clock b) →
  w_runs w = w_runs w0 →
  (∀ src, src ∈ sources →
     ∃ wi, w_runs wi = w_runs w0 ∧ (w_ticks wi ≤ w_ticks w)%nat ∧
           (canRunScraper src wi).1.1 = true) →
  (checkSources sources w).1 = None.
Proof.
  intros Hmono. revert w. induction sources as [|src rest IH]; intros w Hruns Hall; [done|].
  simpl. destruct (Hall src) as (wi & Hri & Hti & Hcan); [left|].
  pose proof (canRunScraper_allowed_later src wi w Hmono) as Hlater.
  rewrite Hruns, Hri in Hlater. specialize (Hlater eq_refl Hti Hcan).
  pose proof (canRunScraper_frame src w) as Hf.
  pose proof (canRunScraper_ticks src w) as Ht.
  destruct (canRunScraper src w) as [[canRun m] w1]. simpl in *.
  injection Hlater as -> ->. simpl. apply IH.
  - rewrite Hf. done.
  - intros src' Hin. destruct (Hall src') as (wi' & Hri' & Hti' & Hcan'); [by right|].
    exists wi'. split; [done|]. split; [lia|done].
Qed.

(** X21. With a clock that never runs backwards, the workflow that POST
    /scrape starts, run next on the world the route left, is let through by
    its own cooldown check: it inserts its row of [scraper_runs] for the
    source of the request and spawns the scraper once.  The refusal of the
    workflow cannot follow a 200 answer. *)
Theorem postScrape_then_workflow_runs (settingsT : list Setting)
    (source keyword : option string) (w : World) (out : Promise WorkflowResult * World) :
  (∀ a b, (a ≤ b)%nat → clock a ≤ clock b) →
  startedWorkflow (postScrape settingsT source keyword w).1
                  (postScrape settingsT source keyword w).2 = Some out →
  ∃ src r,
    source = Some (source_name src) ∧
    (checkSources (sourcesOf src) (postScrape settingsT source keyword w).2).1 = None ∧
    w_runs out.2 = w_runs w ++ [r] ∧ run_source r = source_name src ∧
    length (w_spawned out.2) = S (length (w_spawned w)).
Proof.
  intros Hmono. unfold postScrape.
  destruct (source ≫= parseSource) as [src|] eqn:Hsrc; [|done].
  assert (Hsource : source = Some (source_name src)).
  { destruct source as [s|]; [|done]. simpl in Hsrc. unfold parseSource in Hsrc.
    repeat case_decide; try discriminate Hsrc; injection Hsrc as <-; by subst. }
  pose proof (checkSources_frame (sourcesOf src) w) as Hf.
  pose proof (checkSources_ticks (sourcesOf src) w) as Ht.
  pose proof (checkSources_passed (sourcesOf src) w) as Hpassed.
  destruct (checkSources (sourcesOf src) w) as [[[blocked m]|] w1]; simpl in *; [done|].
  intros [= <-].
  set (kw := match or_null keyword with
             | Some k => k
             | None => settingKeyword settingsT
             end).
  assert (Hruns1 : w_runs w1 = w_runs w) by (by rewrite Hf).
  assert (Hsp1 : w_spawned w1 = w_spawned w) by (by rewrite Hf).
  assert (Hgate : (checkSources (sourcesOf src) w1).1 = None).
  { apply (checkSources_pass_later (sourcesOf src) w w1 Hmono Hruns1).
    intros s Hs. destruct (Hpassed s eq_refl Hs) as (wi & Hri & Hti & Hcan).
    by exists wi. }
  exists src. 
  destruct (runScraperWorkflow_shape src kw false w1) as [Hr1 Hshape].
  pose proof (checkSources_spawned (sourcesOf src) w1) as Hsp2.
  set (w2 := (checkSources (sourcesOf src) w1).2) in *.
  set (r0 := newRunRecord (w_runs w2) (source_name src) (clock (w_ticks w2))) in *.
  pose proof (runPythonScraper_frame kw src (db_insertRun r0 (tick w2)))
    as (_ & _ & _ & _ & _ & Hspawn).
  simpl in Hspawn.
  assert (Hlen : length (w_spawned (runScraperWorkflow src kw false w1).2)
                 = S (length (w_spawned w))).
  { unfold runScraperWorkflow. fold w2.
    destruct (checkSources (sourcesOf src) w1) as [[[b' m']|] w2'] eqn:Hc; simpl in *; [done|].
    subst w2. fold r0.
    destruct (runPythonScraper kw src (db_insertRun r0 (tick w2'))) as [[res|msg|] w3];
      simpl in Hspawn.
    - pose proof (upsertJobs_frame res (source_name src) w3) as (_ & _ & Hs' & _).
      destruct (upsertJobs res (source_name src) w3) as [stats w4]. simpl in *.
      rewrite Hs', Hspawn, length_app, Hsp2, Hsp1. simpl. lia.
    - simpl. rewrite Hspawn, length_app, Hsp2, Hsp1. simpl. lia.
    - simpl. rewrite Hspawn, length_app, Hsp2, Hsp1. simpl. lia. }
  destruct Hshape as [[Hne _]|[_ [(_ & _ & _ & _ & Hr)|
    [(msg & t & _ & _ & _ & _ & Hr)|(result & w3 & t & _ & _ & _ & _ & _ & Hr)]]]];
    [done| | |]; eexists; (split; [done|]); (split; [done|]);
    (split; [rewrite Hr, Hruns1; reflexivity|]); (split; [done|exact Hlen]).
Qed.

(** ** A url named twice in one result *)

Lemma upsertLoop_new_row_fresh records w n i j :
  (length (w_jobs w) ≤ i)%nat →
  w_jobs (upsertLoop records (w, n)).1 !! i = Some j →
  job_url j ∉ urlsOf (w_jobs w).
Proof.
  revert w n. induction records as [|sj records IH]; intros w n Hlen Hi.
  - simpl in Hi. apply lookup_lt_Some in Hi. lia.
  - rewrite upsertLoop_cons in Hi.
    pose proof (upsertJob_urls_mono sj w n) as Hmono.
    destruct (decide (sj_url sj ∈ urlsOf (w_jobs w))) as [Hin|Hnin].
    + rewrite upsertJob_found in Hi, Hmono by done. simpl in *.
      assert (Hl : (length (db_updateSeen (sj_url sj) (clock (w_ticks w)) (w_jobs w)) ≤ i)%nat)
        by (unfold db_updateSeen; by rewrite length_fmap).
      intros Hu.
      apply (IH (set_jobs (db_updateSeen (sj_url sj) (clock (w_ticks w)) (w_jobs w)) (tick w))
                n Hl Hi).
      simpl. by apply Hmono.
    + rewrite upsertJob_fresh in Hi, Hmono by done. simpl in *.
      destruct (decide (length (w_jobs w) = i)) as [<-|Hne].
      * set (row := newJobRow (next_id (job_id <$> w_jobs w)) sj (clock (w_ticks w))) in *.
        destruct (upsertLoop_row records (set_jobs (w_jobs w ++ [row]) (tick w)) (S n)
                    (length (w_jobs w)) row) as (j' & Hj' & _ & _ & Hu & _).
        { simpl. rewrite lookup_app_r by done. by rewrite Nat.sub_diag. }
        rewrite Hi in Hj'. injection Hj' as <-. by rewrite Hu.
      * assert (Hl : (length (w_jobs w ++ [newJobRow (next_id (job_id <$> w_jobs w)) sj
                                               (clock (w_ticks w))]) ≤ i)%nat)
          by (rewrite length_app; simpl; lia).
        intros Hu.
        apply (IH (set_jobs (w_jobs w ++ [newJobRow (next_id (job_id <$> w_jobs w)) sj
                                            (clock (w_ticks w))]) (tick w)) (S n) Hl Hi).
        simpl. by apply Hmono.
Qed.

(** X22. A url that a result names twice is never listed as new: when two
    records of one result carry the same url, every stored job with that url
    is not new after [upsertJobs], also when the first of the two records
    has just inserted it. *)
Theorem repeated_url_not_new (result : ScraperResult) (source : string) (w : World)
    (i1 i2 : nat) (record1 record2 : ScrapedJob) (j : Job) :
  sr_jobs result !! i1 = Some record1 →
  sr_jobs result !! i2 = Some record2 →
  (i1 < i2)%nat →
  sj_url record1 = sj_url record2 →
  j ∈ w_jobs (upsertJobs result source w).2 →
  job_url j = sj_url record1 →
  job_isNewInLastHour j = false.
Proof.
  intros H1 H2 Hlt Hurl Hj Hju.
  rewrite upsertJobs_unfold in Hj. simpl in Hj.
  rewrite <- (take_drop_middle _ _ _ H2), upsertLoop_app, upsertLoop_cons in Hj.
  set (w0 := set_jobs (db_markNotNew source (w_jobs w)) w) in *.
  assert (Hstored : sj_url record2 ∈ urlsOf (w_jobs (upsertLoop (take i2 (sr_jobs result))
                                                       (w0, 0%nat)).1)).
  { apply upsertLoop_urls_stored. rewrite <- Hurl. apply list_elem_of_fmap.
    exists record1. split; [done|]. apply list_elem_of_lookup. exists i1.
    by rewrite lookup_take_lt. }
  destruct (upsertLoop (take i2 (sr_jobs result)) (w0, 0%nat)) as [w1 n1]. simpl in Hstored.
  rewrite upsertJob_found in Hj by done.
  set (w2 := set_jobs (db_updateSeen (sj_url record2) (clock (w_ticks w1)) (w_jobs w1))
               (tick w1)) in *.
  apply list_elem_of_lookup in Hj as [i Hi].
  destruct (decide (length (w_jobs w2) ≤ i)%nat) as [Hge|Hlti].
  - exfalso. apply (upsertLoop_new_row_fresh (drop (S i2) (sr_jobs result)) w2 n1 i j Hge Hi).
    subst w2. simpl. rewrite urlsOf_updateSeen. by rewrite Hju, Hurl.
  - assert (is_Some (w_jobs w2 !! i)) as [j2 Hj2] by (apply lookup_lt_is_Some; lia).
    destruct (upsertLoop_row (drop (S i2) (sr_jobs result)) w2 n1 i j2 Hj2)
      as (j' & Hj' & _ & _ & Hu & _ & _ & Hold).
    rewrite Hi in Hj'. injection Hj' as <-. apply Hold.
    subst w2. simpl in Hj2. unfold db_updateSeen in Hj2.
    rewrite list_lookup_fmap in Hj2.
    destruct (w_jobs w1 !! i) as [j1|]; [|done]. simpl in Hj2. injection Hj2 as <-.
    case_decide as Hd; [done|]. exfalso. apply Hd. by rewrite <- Hurl, <- Hju, Hu.
Qed.

(** ** The row of a failed run *)


End Service.

(** * The properties on the sample data *)

Local Abbreviation sample_canRun := (canRunScraper Sample.clock Sample.hours).
Local Abbreviation sample_upsertJob := (upsertJob Sample.clock).
Local Abbreviation sample_upsertJobs := (upsertJobs Sample.clock).
Local Abbreviation sample_invoke python :=
  (runPythonScraper Sample.pythonPath Sample.scraperPath Sample.parse python).
Local Abbreviation sample_run python :=
  (runScraperWorkflow Sample.clock Sample.hours Sample.pythonPath Sample.scraperPath
     Sample.parse python).

Lemma sample_clock_mono a b : (a ≤ b)%nat → Sample.clock a ≤ Sample.clock b.
Proof. unfold Sample.clock. lia. Qed.

Lemma cooling_mostRecent :
  mostRecentCompletion "linkedin" (w_runs Sample.cooling) 1699998200000.
Proof. apply (bool_decide_unpack _). vm_compute. exact I. Qed.

(** C1 on the sample ledger: 30 minutes after the last completed run of
    linkedin, with 2 hours required, the run is refused for 90 minutes. *)
Lemma canRunScraper_cooldown_witness :
  (sample_canRun "linkedin" Sample.cooling).1 = (false, 90).
Proof.
  destruct (canRunScraper_cooldown Sample.clock Sample.hours "linkedin" Sample.cooling)
    as (_ & _ & H).
  destruct (H 1699998200000 cooling_mostRecent) as (_ & _ & Hex).
  apply Hex; reflexivity.
Defined.

(** C2 as stated fails: a stored job of linkedin that is still new is named
    by a record of a cycle run for source all; the update leaves it not new,
    so it is not the stored row with lastSeen and updatedAt moved. *)
Lemma upsertJob_revisit_counterexample :
  sj_url Sample.revisit ∈ urlsOf (w_jobs Sample.stocked) ∧
  w_jobs (sample_upsertJobs Sample.revisitResult "all" Sample.stocked).2
    = [set_seen (Sample.clock 0) Sample.freshJob] ∧
  job_isNewInLastHour Sample.freshJob = true ∧
  job_isNewInLastHour (set_seen (Sample.clock 0) Sample.freshJob) = false ∧
  ¬ (∃ nowIso, w_jobs (sample_upsertJobs Sample.revisitResult "all" Sample.stocked).2
                 = [spec_revisit nowIso Sample.freshJob]).
Proof.
  assert (Hrun : w_jobs (sample_upsertJobs Sample.revisitResult "all" Sample.stocked).2
                 = [set_seen (Sample.clock 0) Sample.freshJob]) by (by vm_compute).
  split; [by apply (bool_decide_unpack _); vm_compute|].
  split; [done|]. split; [done|]. split; [done|].
  intros [nowIso H]. rewrite Hrun in H. discriminate H.
Qed.

(** C2 (amended) on the sample table: the revisit of the stored job. *)
Lemma upsertJob_by_url_witness :
  (sample_upsertJob Sample.revisit (Sample.stocked, 0%nat)).2 = 0%nat ∧
  countUrl (sj_url Sample.revisit)
           (w_jobs (sample_upsertJob Sample.revisit (Sample.stocked, 0%nat)).1) = 1%nat.
Proof.
  destruct (upsertJob_by_url Sample.clock Sample.revisit Sample.stocked 0%nat)
    as (Hfound & _).
  assert (Hin : sj_url Sample.revisit ∈ urlsOf (w_jobs Sample.stocked))
    by (by apply (bool_decide_unpack _); vm_compute).
  assert (Hnd : NoDup (urlsOf (w_jobs Sample.stocked)))
    by (by apply (bool_decide_unpack _); vm_compute).
  destruct (Hfound Hin) as (Hn & _ & _ & _ & Hone).
  split; [exact Hn|]. exact (proj2 (Hone Hnd)).
Defined.

(** C3 on the sample table: an empty cycle of linkedin. *)
Lemma upsertJobs_marks_source_first_witness :
  (sample_upsertJobs Sample.emptyResult "linkedin" Sample.stocked).1 = (0%nat, 0%nat) ∧
  ∃ j', w_jobs (sample_upsertJobs Sample.emptyResult "linkedin" Sample.stocked).2 !! 0%nat
          = Some j' ∧
        job_id j' = job_id Sample.freshJob ∧ job_isNewInLastHour j' = false.
Proof.
  destruct (upsertJobs_marks_source_first Sample.clock Sample.emptyResult "linkedin"
              Sample.stocked) as (_ & _ & Hrow & Hempty).
  split.
  - exact (proj1 (Hempty eq_refl)).
  - exact (Hrow 0%nat Sample.freshJob eq_refl eq_refl).
Defined.

(** C4 on the sample table: the same two records upserted twice. *)
Lemma upsertJobs_twice_witness :
  (sample_upsertJobs Sample.okResult "all"
     (sample_upsertJobs Sample.okResult "all" Sample.stocked).2).1 = (2%nat, 0%nat).
Proof.
  exact (proj1 (upsertJobs_twice Sample.clock Sample.okResult "all" Sample.stocked)).
Defined.

(** C5 on the sample ledger: linkedin is cooling down, a run for all sources
    is refused and writes nothing. *)
Lemma runScraperWorkflow_blocked_witness :
  ∃ src m w',
    sample_run Sample.pythonNewcomer all "embedded" true Sample.cooling
      = (Resolved (mustWait m src), w') ∧
    w_runs w' = w_runs Sample.cooling ∧ w_spawned w' = [] ∧ w_jobs w' = [].
Proof.
  assert (Hex : Exists (λ c, (sample_canRun c.1 c.2).1.1 = false)
                  (gateChecks Sample.clock Sample.hours (sourcesOf all) Sample.cooling)).
  { apply Exists_cons_hd. by vm_compute. }
  destruct (runScraperWorkflow_blocked Sample.clock Sample.hours Sample.pythonPath
              Sample.scraperPath Sample.parse Sample.pythonNewcomer all "embedded" true
              Sample.cooling Hex)
    as (src & m & wi & w' & _ & _ & Hrun & _ & Hr & _ & Hs & Hj & _).
  exists src, m, w'. split; [exact Hrun|]. split; [exact Hr|]. split; [exact Hs|exact Hj].
Defined.

(** C6 on the sample ledger: a run of stepstone keeps the ledger well dated. *)
Lemma runScraperWorkflow_ledger_witness :
  Forall closedIffDated
    (w_runs (sample_run Sample.pythonNewcomer stepstone "embedded" false Sample.cooling).2).
Proof.
  apply (proj2 (runScraperWorkflow_ledger Sample.clock Sample.hours Sample.pythonPath
                  Sample.scraperPath Sample.parse Sample.pythonNewcomer stepstone
                  "embedded" false Sample.cooling)).
  assert (Hrow : ∀ r, is_Some (run_completedAt r) → run_status r ≠ running →
                       closedIffDated r) by (intros r ? ?; by split).
  repeat (apply List.Forall_cons; [by apply Hrow; [eexists|]|]).
  apply List.Forall_nil.
Defined.

(** C7 on the sample process that writes the blocked document. *)
Lemma runScraperWorkflow_reported_failure_witness :
  (sample_invoke Sample.pythonBlocked "embedded" linkedin Sample.emptyWorld).1
    = Rejected "blocked" ∧
  (sample_run Sample.pythonBlocked linkedin "embedded" true Sample.emptyWorld).1
    = Resolved (mkWorkflowResult false "Scraper failed: blocked" None).
Proof.
  destruct (runScraperWorkflow_reported_failure Sample.clock Sample.hours Sample.pythonPath
              Sample.scraperPath Sample.parse Sample.pythonBlocked linkedin "embedded" true
              Sample.emptyWorld "HTTP 403" Sample.blockedResult
              eq_refl eq_refl eq_refl eq_refl) as [Hinvoke Hrun].
  split; [exact Hinvoke|]. exact (proj1 (Hrun eq_refl)).
Defined.

(** C8 as stated fails: the sample process never closes, and
    [runPythonScraper] neither rejects nor resolves. *)
Lemma runPythonScraper_deadline_counterexample :
  Sample.pythonHangs 0%nat (scraperArgs Sample.scraperPath "embedded" linkedin) = NeverCloses ∧
  (sample_invoke Sample.pythonHangs "embedded" linkedin Sample.emptyWorld).1 = Pending ∧
  (∀ message, (sample_invoke Sample.pythonHangs "embedded" linkedin Sample.emptyWorld).1
              ≠ Rejected message) ∧
  (sample_run Sample.pythonHangs linkedin "embedded" true Sample.emptyWorld).1 = Pending.
Proof. repeat split; try done. Qed.

(** C8 (amended) on the sample process that never closes. *)
Lemma runPythonScraper_no_deadline_witness :
  (sample_run Sample.pythonHangs linkedin "embedded" true Sample.emptyWorld).1 = Pending ∧
  ∃ r0, w_runs (sample_run Sample.pythonHangs linkedin "embedded" true Sample.emptyWorld).2
          = w_runs Sample.emptyWorld ++ [r0] ∧
        run_status r0 = running ∧ run_completedAt r0 = None.
Proof.
  exact (proj2 (proj2 (runPythonScraper_no_deadline Sample.clock Sample.hours
                         Sample.pythonPath Sample.scraperPath Sample.parse
                         Sample.pythonHangs linkedin "embedded" true Sample.emptyWorld))
           eq_refl eq_refl).
Defined.

(** C9 on the sample table: a cycle for all sources that finds another job
    leaves the stored job of linkedin new. *)
Lemma all_cycle_keeps_new_witness :
  w_jobs (sample_upsertJobs Sample.newcomerResult "all" Sample.stocked).2 !! 0%nat
    = Some Sample.freshJob ∧
  w_jobs (sample_run Sample.pythonNewcomer all "embedded" true Sample.stocked).2 !! 0%nat
    = Some Sample.freshJob.
Proof.
  assert (Hsrc : job_source Sample.freshJob ≠ "all") by done.
  destruct (all_cycle_keeps_new Sample.clock Sample.hours Sample.pythonPath
              Sample.scraperPath Sample.parse Sample.pythonNewcomer "embedded" true
              Sample.stocked 0%nat Sample.freshJob eq_refl Hsrc)
    as (_ & Hups & _ & Hrun).
  split.
  - apply Hups. by apply (bool_decide_unpack _); vm_compute.
  - apply Hrun. intros result w0 Hsp Hres.
    rewrite runPythonScraper_outcome in Hres. simpl in Hres.
    injection Hres as <-. by apply (bool_decide_unpack _); vm_compute.
Defined.

(** C10 on the sample ledger: linkedin, rested, is allowed before a run for
    all sources and allowed after it. *)
Lemma all_run_starts_no_cooldown_witness :
  (sample_canRun "linkedin" Sample.rested).1 = (true, 0) ∧
  (sample_canRun "linkedin"
     (sample_run Sample.pythonNewcomer all "embedded" true Sample.rested).2).1 = (true, 0).
Proof.
  assert (Hne : "linkedin" ≠ "all") by done.
  destruct (all_run_starts_no_cooldown Sample.clock Sample.hours Sample.pythonPath
              Sample.scraperPath Sample.parse Sample.pythonNewcomer "embedded" true
              Sample.rested "linkedin" Hne) as (_ & _ & _ & Hlater).
  split; [by vm_compute|].
  apply Hlater; [exact sample_clock_mono|by vm_compute|].
  by apply (bool_decide_unpack _); vm_compute.
Defined.

Local Abbreviation sample_post :=
  (postScrape Sample.clock Sample.hours Sample.trim Sample.settingsTable).
Local Abbreviation sample_started python :=
  (startedWorkflow Sample.clock Sample.hours Sample.pythonPath Sample.scraperPath
     Sample.parse python).

(** X7 on the sample table: the stored job after a cycle that revisits it. *)
Lemma stored_job_kept_witness :
  ∃ isNew lastSeen updatedAt,
    w_jobs (sample_upsertJobs Sample.okResult "linkedin" Sample.stocked).2 !! 0%nat
      = Some (mkJob 1 "Firmware Engineer" "Acme" (Some "Berlin") "https://jobs.example/1"
                None None None None (Some "firmware") "linkedin" isNew
                1699990000000 lastSeen 1699990000000 updatedAt).
Proof.
  exact (proj1 (stored_job_kept Sample.clock Sample.hours Sample.pythonPath
                  Sample.scraperPath Sample.parse Sample.pythonNewcomer "embedded" true
                  Sample.stocked 0%nat Sample.freshJob eq_refl)
           Sample.okResult "linkedin").
Defined.

(** X8 on the sample table: after a cycle the ids are distinct and no job
    carries the id 3. *)
Lemma getJobById_after_upsertJobs_witness :
  NoDup (job_id <$> w_jobs (sample_upsertJobs Sample.okResult "all" Sample.stocked).2) ∧
  getJobById 3 (sample_upsertJobs Sample.okResult "all" Sample.stocked).2 = None.
Proof.
  assert (Hnd : NoDup (job_id <$> w_jobs Sample.stocked))
    by (by apply (bool_decide_unpack _); vm_compute).
  pose proof (getJobById_after_upsertJobs Sample.clock Sample.okResult "all"
                Sample.stocked Hnd) as H.
  cbv zeta in H. destruct H as (Hids & _ & Hnone).
  split; [exact Hids|]. apply Hnone.
  by apply (bool_decide_unpack _); vm_compute.
Defined.

(** X9 on the sample table: the one job listed as new for stepstone after a
    cycle of stepstone was inserted by the cycle, from a record of stepstone. *)
Lemma getJobsBySource_after_cycle_witness :
  ∃ j i scrapedJob,
    getJobsBySource "stepstone"
      (sample_upsertJobs Sample.okResult "stepstone" Sample.stocked).2 = [j] ∧
    (length (w_jobs Sample.stocked) ≤ i)%nat ∧
    w_jobs (sample_upsertJobs Sample.okResult "stepstone" Sample.stocked).2 !! i = Some j ∧
    scrapedJob ∈ sr_jobs Sample.okResult ∧
    sj_url scrapedJob = job_url j ∧ sj_source scrapedJob = "stepstone".
Proof.
  assert (Hl : ∃ j, getJobsBySource "stepstone"
                      (sample_upsertJobs Sample.okResult "stepstone" Sample.stocked).2 = [j])
    by (eexists; by vm_compute).
  destruct Hl as [j Hl]. exists j.
  assert (Hj : j ∈ getJobsBySource "stepstone"
                 (sample_upsertJobs Sample.okResult "stepstone" Sample.stocked).2)
    by (rewrite Hl; apply list_elem_of_here).
  destruct (getJobsBySource_after_cycle Sample.clock Sample.okResult "stepstone"
              Sample.stocked j Hj) as (i & scrapedJob & H).
  exists i, scrapedJob. split; [exact Hl|exact H].
Defined.

(** X10 on the sample table: the newcomer, found for the first time, is
    listed as new for stepstone. *)
Lemma first_sighting_listed_witness :
  ∃ j, j ∈ getJobsBySource "stepstone"
             (sample_upsertJobs Sample.okResult "all" Sample.stocked).2 ∧
       job_url j = "https://jobs.example/2" ∧ job_title j = "Hardware Engineer" ∧
       job_company j = "Bolt" ∧ job_isNewInLastHour j = true ∧
       job_firstSeen j = job_lastSeen j.
Proof.
  apply (first_sighting_listed Sample.clock Sample.okResult "all" Sample.stocked
           Sample.newcomer).
  - by apply (bool_decide_unpack _); vm_compute.
  - apply list_elem_of_further, list_elem_of_here.
  - by apply (bool_decide_unpack _); vm_compute.
Defined.

(** X11 on the sample table: the times of the stored jobs stay in order
    through a cycle. *)
Lemma upsertJobs_keeps_times_in_order_witness :
  seenInOrder Sample.clock Sample.stocked ∧
  seenInOrder Sample.clock (sample_upsertJobs Sample.okResult "all" Sample.stocked).2.
Proof.
  assert (H : seenInOrder Sample.clock Sample.stocked)
    by (by apply (bool_decide_unpack _); vm_compute).
  split; [exact H|].
  exact (upsertJobs_keeps_times_in_order Sample.clock Sample.okResult "all" Sample.stocked
           sample_clock_mono H).
Defined.

(** X12 on the sample ledger: the row of a completed run of stepstone. *)
Lemma completed_run_row_witness :
  ∃ r1 completedAt,
    w_runs (sample_run Sample.pythonNewcomer stepstone "embedded" false Sample.cooling).2
      = w_runs Sample.cooling ++ [r1] ∧
    run_jobsFound r1 = 1%nat ∧ run_newJobs r1 = 1%nat ∧
    run_source r1 = "stepstone" ∧ run_status r1 = completed ∧ run_error r1 = None ∧
    run_completedAt r1 = Some completedAt ∧ run_startedAt r1 ≤ completedAt.
Proof.
  destruct (completed_run_row Sample.clock Sample.hours Sample.pythonPath Sample.scraperPath
              Sample.parse Sample.pythonNewcomer stepstone "embedded" false Sample.cooling
              (mkWorkflowResult true "Scraper completed successfully" (Some (1%nat, 1%nat)))
              eq_refl eq_refl)
    as (r1 & jobsFound & newJobs & completedAt & Hruns & Hstats & Hf & Hn & _ & Hs & Hst &
        He & Hc & Hord).
  injection Hstats as <- <-.
  exists r1, completedAt.
  repeat (split; [assumption|]). exact (Hord sample_clock_mono).
Defined.

(** X13 on the sample ledger: ten readings of the clock after the start of a
    completed run of stepstone, stepstone is refused for 112 minutes. *)
Lemma completed_run_starts_cooldown_witness :
  (sample_canRun "stepstone"
     (set_ticks 10
        (sample_run Sample.pythonNewcomer stepstone "embedded" false Sample.cooling).2)).1
    = (false, 112).
Proof.
  destruct (completed_run_starts_cooldown Sample.clock Sample.hours Sample.pythonPath
              Sample.scraperPath Sample.parse Sample.pythonNewcomer stepstone "embedded"
              false Sample.cooling
              (mkWorkflowResult true "Scraper completed successfully" (Some (1%nat, 1%nat)))
              eq_refl eq_refl)
    as (r1 & completedAt & Hruns & Hc & Hgate).
  assert (Hlast : last (w_runs (sample_run Sample.pythonNewcomer stepstone "embedded" false
                                  Sample.cooling).2) ≫= run_completedAt
                  = Some 1700000120000) by (by vm_compute).
  rewrite Hruns, last_snoc in Hlast. simpl in Hlast. rewrite Hc in Hlast.
  injection Hlast as ->.
  destruct (Hgate (List.Forall_nil _) 10%nat) as [_ Hrefused].
  transitivity (false, Qceiling (inject_Z (Sample.hours * 60)
                                 - minutesBetween (Sample.clock 10) 1700000120000)).
  - apply Hrefused. intros Hle. by vm_compute in Hle.
  - by vm_compute.
Defined.

(** X20 on the sample ledger: a run triggered through the route completes
    and leaves no timer. *)
Lemma postScrape_sets_no_timer_witness :
  (sample_post (Some "stepstone") None Sample.cooling).1
    = ScraperStarted stepstone "firmware engineer" ∧
  w_activeSchedules
    (sample_run Sample.pythonNewcomer stepstone "firmware engineer" false Sample.cooling).2
    = w_activeSchedules Sample.cooling.
Proof.
  split; [by vm_compute|].
  exact (postScrape_sets_no_timer Sample.clock Sample.hours Sample.pythonPath
           Sample.scraperPath Sample.parse Sample.pythonNewcomer Sample.trim
           Sample.settingsTable (Some "stepstone") None Sample.cooling
           (sample_run Sample.pythonNewcomer stepstone "firmware engineer" false
              Sample.cooling)
           eq_refl).
Defined.

(** X21 on the sample ledger: the run started by the route opens a row of
    stepstone and spawns one process. *)
Lemma postScrape_then_workflow_runs_witness :
  ∃ r, w_runs (sample_run Sample.pythonNewcomer stepstone "firmware engineer" false
                 Sample.cooling).2 = w_runs Sample.cooling ++ [r] ∧
       run_source r = "stepstone" ∧
       length (w_spawned (sample_run Sample.pythonNewcomer stepstone "firmware engineer"
                            false Sample.cooling).2) = 1%nat.
Proof.
  destruct (postScrape_then_workflow_runs Sample.clock Sample.hours Sample.pythonPath
              Sample.scraperPath Sample.parse Sample.pythonNewcomer Sample.trim
              Sample.settingsTable (Some "stepstone") None Sample.cooling
              (sample_run Sample.pythonNewcomer stepstone "firmware engineer" false
                 Sample.cooling)
              sample_clock_mono eq_refl)
    as (src & r & Hsrc & _ & Hruns & Hs & Hsp).
  injection Hsrc as Hsrc.
  assert (src = stepstone) as -> by (by destruct src).
  exists r. split; [exact Hruns|]. split; [exact Hs|exact Hsp].
Defined.

(** X22 on the sample table: the batch that lists the newcomer twice stores
    one row for it, and the row is not new. *)
Lemma repeated_url_not_new_witness :
  length (w_jobs (sample_upsertJobs Sample.duplicateResult "stepstone"
                    Sample.emptyWorld).2) = 1%nat ∧
  Forall (λ j, job_url j = sj_url Sample.newcomer ∧ job_isNewInLastHour j = false)
    (w_jobs (sample_upsertJobs Sample.duplicateResult "stepstone" Sample.emptyWorld).2).
Proof.
  split; [by vm_compute|].
  assert (Hurl : Forall (λ j, job_url j = sj_url Sample.newcomer)
                   (w_jobs (sample_upsertJobs Sample.duplicateResult "stepstone"
                              Sample.emptyWorld).2))
    by (by apply (bool_decide_unpack _); vm_compute).
  apply Forall_forall. intros j Hj. split.
  - exact (proj1 (Forall_forall _ _) Hurl j Hj).
  - apply (repeated_url_not_new Sample.clock Sample.duplicateResult "stepstone"
             Sample.emptyWorld 0%nat 1%nat Sample.newcomer Sample.newcomer j
             eq_refl eq_refl (le_n 1) eq_refl Hj).
    exact (proj1 (Forall_forall _ _) Hurl j Hj).
Defined.

